(** * EmojiGAN: a shallow embedding of the notebook's own logic

    The notebook [emojigan.ipynb] is glue around numpy, OpenCV and Keras.
    This development embeds the functions the notebook itself defines
    ([remove_transparency], [get_images], [build_generator], [build_gan],
    [save_data], [train_gan]) and treats the libraries as collaborators:

    - what a library computes from data we cannot see (a gradient step, an
      interpolation kernel, a decoded file, whether a call raises) is a
      [Variable] of a [Section];
    - what a library guarantees by contract (the argument order of
      [cv2.resize], the truncating cast of [np.uint8], the half-open range of
      [np.random.random], the weights a compiled Keras model updates) is
      written out as a definition next to the call that relies on it.

    Pixel arithmetic of [remove_transparency] and label arithmetic of
    [train_gan] are binary64, as in the notebook: the first on primitive
    floats, the second on rationals rounded to binary64 after every
    operation. Network activations are reals. *)

From Stdlib Require Import Reals Lra.
From Stdlib Require Import Ascii String ZArith QArith Qround Qpower Lqa.
From Stdlib Require Import List Bool Lia.
From Stdlib Require Import DecimalString DecimalNat.
From Stdlib Require Import PrimFloat FloatOps SpecFloat Uint63.
Import ListNotations.

Set Implicit Arguments.

(** ** Arrays *)

(** A numpy array of rank 3, row major: rows, columns, channels. *)
Definition Array3 (A : Type) : Type := list (list (list A)).

(** [arr.shape] of a rank-3 array. *)
Definition shape3 {A : Type} (img : Array3 A) : nat * nat * nat :=
  (length img, length (hd [] img), length (hd [] (hd [] img))).

(** Every element of a rank-3 array satisfies [P]. *)
Definition all3 {A : Type} (P : A -> Prop) (img : Array3 A) : Prop :=
  Forall (Forall (Forall P)) img.

(** The entries of an integer image as [cv2.imread] returns it. *)
Definition Image : Type := Array3 Z.

Definition is_u8 (v : Z) : Prop := (0 <= v <= 255)%Z.

(** The byte values, in order. *)
Definition u8_values : list Z := map Z.of_nat (seq 0 256).

(** The element type of an image read from a PNG file: [cv2.imread(path, -1)]
    keeps the bit depth of the file. *)
Inductive Depth : Type := U8 | U16.

Definition depth_max (d : Depth) : Z :=
  match d with
  | U8 => 255%Z
  | U16 => 65535%Z
  end.

(** A numpy array of dtype uint8 or uint16. *)
Record Raster : Type := {
  depth : Depth;
  pixels : Image
}.

Definition u8_image (px : Image) : Raster := {| depth := U8; pixels := px |}.
Definition u16_image (px : Image) : Raster := {| depth := U16; pixels := px |}.

(** ** Binary64 helpers *)

Module F64.

(** A Python int or an integer entry promoted to float64 (exact below
    2^53). *)
Definition of_Z (z : Z) : float :=
  match z with
  | Z0 => PrimFloat.of_uint63 0
  | Zpos _ => PrimFloat.of_uint63 (Uint63.of_Z z)
  | Zneg _ => PrimFloat.opp (PrimFloat.of_uint63 (Uint63.of_Z (- z)))
  end.

(** The integer part of a finite float, rounding toward zero (a C cast). *)
Definition trunc (x : float) : Z :=
  match Prim2SF x with
  | S754_finite s m e =>
      let mag := if (0 <=? e)%Z then Z.shiftl (Z.pos m) e
                 else Z.shiftr (Z.pos m) (- e) in
      if s then (- mag)%Z else mag
  | _ => 0%Z
  end.

(** [np.uint8(x)] on a float64: truncate, then keep the low eight bits. *)
Definition to_uint8 (x : float) : Z := (trunc x mod 256)%Z.

(** The Python expression [(1 / 255.0)]. *)
Definition inv255 : float := (1 / of_Z 255)%float.

(** Fused multiply-add, [x * y + z] with one rounding: the product is
    formed exactly and added to [z] before the sum is rounded to nearest
    even. Where an operand is zero, infinite or not a number the plain
    operations already give the fused result. *)
Definition fma (x y z : float) : float :=
  match Prim2SF x, Prim2SF y, Prim2SF z with
  | S754_finite sx mx ex, S754_finite sy my ey, S754_finite sz mz ez =>
      let ep := (ex + ey)%Z in
      let e := Z.min ep ez in
      let p :=
        cond_Zopp (xorb sx sy) (Zpos (fst (shl_align (mx * my) ep e))) in
      let c := cond_Zopp sz (Zpos (fst (shl_align mz ez e))) in
      SF2Prim (binary_normalize prec emax (p + c) e false)
  | _, _, _ => (x * y + z)%float
  end.

(** The value of a finite float as a rational. *)
Definition to_Q (x : float) : Q :=
  match Prim2SF x with
  | S754_finite s m e =>
      ((if s then -1 else 1) * inject_Z (Z.pos m) * 2 ^ e)%Q
  | _ => 0%Q
  end.

(** *** Rounding a rational to binary64

    Rounding to nearest even with a 53-bit significand and an unbounded
    exponent. For the label arithmetic of the trainer this is binary64
    rounding: a draw of [np.random.random] is a multiple of 2^-53, so every
    product and sum formed from it is 0 or lies between 2^-58 and 2, far
    from the subnormal range and from overflow. *)

(** The nearest integer, ties to the even one. *)
Definition rne (q : Q) : Z :=
  let f := Qfloor q in
  match Qcompare (q - inject_Z f) (1 # 2) with
  | Lt => f
  | Gt => (f + 1)%Z
  | Eq => if Z.even f then f else (f + 1)%Z
  end.

(** The binary exponent of a positive rational: [2^k <= q < 2^(k+1)]. *)
Definition ilog2 (q : Q) : Z :=
  let k := (Z.log2 (Qnum q) - Z.log2 (Zpos (Qden q)))%Z in
  if Qle_bool (2 ^ k) q then k else (k - 1)%Z.

(** A positive rational rounded to 53 significant bits. *)
Definition round_pos (q : Q) : Q :=
  let e := (ilog2 q - 52)%Z in
  (inject_Z (rne (q / 2 ^ e)) * 2 ^ e)%Q.

(** The binary64 number nearest to [q]. *)
Definition round (q : Q) : Q :=
  match Qcompare q 0 with
  | Eq => 0%Q
  | Gt => round_pos q
  | Lt => (- round_pos (- q))%Q
  end.

End F64.

(** ** remove_transparency *)

(** [cv2.addWeighted(src1, alpha, src2, beta, gamma)] on float64 arrays, one
    entry. OpenCV computes [src1*alpha + src2*beta + gamma] with fused
    multiply-adds, [fma(src1, alpha, fma(src2, beta, gamma))]. *)
Definition addWeighted (src1 alpha src2 beta gamma : float) : float :=
  F64.fma src1 alpha (F64.fma src2 beta gamma).

(** One colour entry of [remove_transparency]: [v] is the entry of
    [source_img], [a] the entry of [source[:, :, 3]] of the same pixel. *)
Definition composite (background_color v a : Z) : Z :=
  let source_mask := (F64.of_Z a * F64.inv255)%float in
  let background_mask := (1 - source_mask)%float in
  let bg_part :=
    ((F64.of_Z background_color * F64.inv255) * background_mask)%float in
  let source_part := ((F64.of_Z v * F64.inv255) * source_mask)%float in
  F64.to_uint8 (addWeighted bg_part 255 source_part 255 0).

(** One pixel: [source[:, :, :3]] blended under [source[:, :, 3]]. *)
Definition composite_pixel (background_color : Z) (px : list Z) : list Z :=
  let a := nth 3 px 0%Z in
  map (fun v => composite background_color v a) (firstn 3 px).

(** The result is a uint8 array whatever the dtype of [source]. *)
Definition remove_transparency (source : Image) (background_color : Z)
  : Image :=
  map (map (composite_pixel background_color)) source.

(** ** get_images *)

(** What [cv2.imread(path, -1)] hands back. *)
Inductive Decoded : Type :=
| Unreadable                       (* None: missing, zero-byte, not an image *)
| Gray (g : list (list Z))         (* a rank-2 array *)
| Color (img : Raster).            (* a rank-3 array, BGR or BGRA *)

(** The exceptions that can leave the loop of [get_images]. *)
Inductive LoadError : Type :=
| AttributeError   (* None has no attribute shape *)
| IndexError       (* shape[2] of a rank-2 array *)
| CvError.         (* raised inside OpenCV *)

Definition Load (A : Type) : Type := (LoadError + A)%type.

Definition bind {A B : Type} (m : Load A) (k : A -> Load B) : Load B :=
  match m with
  | inl e => inl e
  | inr a => k a
  end.

Notation "x <- m ;; k" := (bind m (fun x => k))
  (at level 61, m at next level, right associativity).

(** [cv2.cvtColor(img, cv2.COLOR_BGR2RGB)]: three or four channels in, three
    out, the first three reversed; the dtype is kept. *)
Definition cvtColor_BGR2RGB (img : Raster) : Load Raster :=
  let scn := snd (shape3 (pixels img)) in
  if (scn =? 3)%nat || (scn =? 4)%nat
  then inr {| depth := depth img;
              pixels := map (map (fun px => rev (firstn 3 px))) (pixels img) |}
  else inl CvError.

(** [saturate_cast]: how OpenCV stores a computed value in an image of the
    given dtype. *)
Definition saturate_cast (d : Depth) (v : Z) : Z :=
  Z.max 0 (Z.min (depth_max d) v).

Section Loader.

(** [glob.glob]: the paths matching a pattern, in the order returned. *)
Variable glob : string -> list string.
(** The content of the file system, as decoded by [cv2.imread(path, -1)]. *)
Variable imread : string -> Decoded.
(** The interpolation of [cv2.resize] (bilinear by default) before the
    result is stored: source, destination size, row, column, channel. *)
Variable interp : Image -> nat * nat -> nat -> nat -> nat -> Z.

(** [cv2.resize(src, dsize)]: [dsize] is (width, height), so the result has
    [snd dsize] rows and [fst dsize] columns, of the dtype of [src]. Empty
    sizes are rejected. *)
Definition resize (src : Raster) (dsize : nat * nat) : Load Raster :=
  let '(rows, cols, chans) := shape3 (pixels src) in
  let '(dwidth, dheight) := dsize in
  if (dwidth =? 0)%nat || (dheight =? 0)%nat
     || (rows =? 0)%nat || (cols =? 0)%nat
  then inl CvError
  else inr {| depth := depth src;
              pixels :=
                map (fun r =>
                  map (fun c =>
                    map (fun k =>
                           saturate_cast (depth src)
                                         (interp (pixels src) dsize r c k))
                        (seq 0 chans))
                    (seq 0 dwidth))
                  (seq 0 dheight) |}.

(** The body of the loop of [get_images] for one path, up to the resize. *)
Definition load_raster (image_path : string) (height width : nat)
  : Load Raster :=
  match imread image_path with
  | Unreadable => inl AttributeError
  | Gray _ => inl IndexError
  | Color img =>
      let img := if (snd (shape3 (pixels img)) =? 4)%nat
                 then u8_image (remove_transparency (pixels img) 255)
                 else img in
      img <- cvtColor_BGR2RGB img ;;
      resize img (height, width)
  end.

(** The body of the loop: the entries appended to [images]. *)
Definition load_image (image_path : string) (height width : nat)
  : Load Image :=
  img <- load_raster image_path height width ;;
  inr (pixels img).

(** The loop: the first exception ends it, and nothing is returned. *)
Fixpoint load_all (image_list : list string) (height width : nat)
  : Load (list Image) :=
  match image_list with
  | [] => inr []
  | image_path :: rest =>
      img <- load_image image_path height width ;;
      images <- load_all rest height width ;;
      inr (img :: images)
  end.

(** [np.asarray(images) / 255.] *)
Definition scale (images : list Image) : list (Array3 Q) :=
  map (map (map (map (fun v => inject_Z v / 255)))) images.

Definition get_images (image_dir : string) (height width : nat)
  : Load (list (Array3 Q)) :=
  images <- load_all (glob image_dir) height width ;;
  inr (scale images).

End Loader.

(** What the loop body of [get_images] can work with: a rank-3 array of
    three or four channels. *)
Definition loadable (d : Decoded) : bool :=
  match d with
  | Color img =>
      (snd (shape3 (pixels img)) =? 3)%nat
      || (snd (shape3 (pixels img)) =? 4)%nat
  | _ => false
  end.

(** One image of the array [np.asarray(images) / 255.]. *)
Definition scale_image (img : Image) : Array3 Q :=
  map (map (map (fun v => inject_Z v / 255))) img.

(** ** Labels and their noise *)

Open Scope Q_scope.

(** [np.ones((n, 1))] and [np.zeros((n, 1))], flattened. *)
Definition ones (n : nat) : list Q := repeat 1 n.
Definition zeros (n : nat) : list Q := repeat 0 n.

(** The contract of [np.random.random]: a draw lies in the half-open
    interval [0.0, 1.0). *)
Definition unit_draw (u : Q) : Prop := 0 <= u /\ u < 1.

(** What [np.random.random] returns more precisely: a multiple of 2^-53
    below 1. *)
Definition random_sample (u : Q) : Prop :=
  exists k : Z, (0 <= k < 2 ^ 53)%Z /\ u == k # (2 ^ 53).

(** The Python literal [0.05]: the binary64 number nearest to 1/20. *)
Definition c05 : Q := F64.round 0.05.

(** The summand of [labels += 0.05 * np.random.random(labels.shape)] at one
    position, for the draw [u] made at that position: a binary64 product. *)
Definition noise_term (u : Q) : Q := F64.round (c05 * u).

(** [labels += 0.05 * draws], entry by entry, each sum a binary64 sum;
    [draws] has the shape of [labels] because it is drawn with
    [labels.shape]. *)
Definition add_noise (labels draws : list Q) : list Q :=
  map (fun lu => F64.round (fst lu + noise_term (snd lu)))
      (combine labels draws).

(** The labels of one discriminator batch before the noise: the generated
    images come first and are marked 1, the real ones follow, marked 0. *)
Definition assemble_labels (batch_size : nat) : list Q :=
  ones batch_size ++ zeros batch_size.

(** A finite distribution over outcomes: weights and values. *)
Definition Dist (A : Type) : Type := list (Q * A).

Definition total_weight {A : Type} (d : Dist A) : Q :=
  fold_right (fun pa acc => fst pa + acc) 0 d.

Definition is_dist {A : Type} (d : Dist A) : Prop :=
  Forall (fun pa => 0 <= fst pa) d /\ total_weight d == 1.

(** The expected value of [f] under [d]. *)
Definition expect {A : Type} (f : A -> Q) (d : Dist A) : Q :=
  fold_right (fun pa acc => fst pa * f (snd pa) + acc) 0 d.

(** Label number [i] of a batch once the noise vector [draws] is added. *)
Definition noisy_label (batch_size i : nat) (draws : list Q) : Q :=
  nth i (add_noise (assemble_labels batch_size) draws) 0.

(** A noise vector as the trainer draws it for a batch. *)
Definition noise_vector (batch_size : nat) (draws : list Q) : Prop :=
  length draws = (batch_size + batch_size)%nat /\ Forall unit_draw draws.

(** The same, with the draws on the grid of [np.random.random]. *)
Definition sample_vector (batch_size : nat) (draws : list Q) : Prop :=
  length draws = (batch_size + batch_size)%nat
  /\ Forall random_sample draws.

(** ** Losses *)

(** A loss as [train_on_batch] reports it: a float. *)
Inductive Loss : Type :=
| Finite (q : Q)
| Infinite (negative : bool)
| NaN.

Definition is_finite (l : Loss) : bool :=
  match l with
  | Finite _ => true
  | _ => false
  end.
(** ** Networks *)

(** The notebook's global [latent_dim]. *)
Definition latent_dim : nat := 100.

Inductive ActivationName : Type := Tanh | Sigmoid.

(** The Keras layers the two networks are made of. Every convolution of the
    notebook uses [padding='same']. *)
Inductive Layer : Type :=
| Dense (units : nat) (activation : option ActivationName)
| Reshape (target_shape : list nat)
| LeakyReLU
| Dropout (rate : Q)
| Conv2DTranspose (filters kernel_size strides : nat)
| Conv2D (filters kernel_size strides : nat)
| Flatten
| Activation (name : ActivationName).

(** [models.Sequential()] after its [add] calls. *)
Record Sequential : Type := {
  input_shape : list nat;
  layers : list Layer
}.

(** The layers [build_generator] adds, in order. [height] and [width] are
    parameters of the function and occur nowhere in its body. Whether Keras
    accepts the layers (it raises ValueError for a layer of zero units or
    filters, that is for [depth = 0] or [channels = 0]) is told by
    [layers_output_shape] below, which is [None] then. *)
Definition build_generator (height width channels depth : nat) (dropout : Q)
  : Sequential :=
  {| input_shape := [latent_dim];
     layers :=
       [ Dense (4 * 4 * depth * 8) None;
         Reshape [4; 4; depth * 8];
         LeakyReLU;
         Dropout dropout;
         Conv2DTranspose (depth * 8) 4 2;
         LeakyReLU;
         Conv2DTranspose (depth * 4) 4 2;
         LeakyReLU;
         Conv2DTranspose (depth * 2) 4 2;
         LeakyReLU;
         Conv2DTranspose depth 4 2;
         LeakyReLU;
         Conv2D channels 7 1;
         Activation Tanh ]%nat |}.

(** The network part of [build_discriminator]: its [model.add] calls. *)
Definition discriminator_network (height width channels depth : nat)
           (dropout : Q) : Sequential :=
  {| input_shape := [height; width; channels];
     layers :=
       [ Conv2D (depth * 1) 4 1;
         LeakyReLU;
         Conv2D (depth * 1) 4 2;
         LeakyReLU;
         Conv2D (depth * 1) 4 2;
         LeakyReLU;
         Conv2D (depth * 2) 4 2;
         LeakyReLU;
         Conv2D (depth * 4) 4 2;
         LeakyReLU;
         Conv2D (depth * 8) 4 2;
         LeakyReLU;
         Dropout dropout;
         Flatten;
         Dense 1 (Some Sigmoid) ]%nat |}.

(** Keras shape inference for one sample (the batch axis left out). A layer
    of zero units or zero filters is rejected by Keras when it is
    constructed; no model exists then, which is [None] here. *)
Definition layer_output_shape (l : Layer) (s : list nat) : option (list nat) :=
  match l with
  | Dense units _ =>
      match s with
      | [] => None
      | _ => if (units =? 0)%nat then None
             else Some (removelast s ++ [units])
      end
  | Reshape target_shape =>
      if (fold_right Nat.mul 1 s =? fold_right Nat.mul 1 target_shape)%nat
      then Some target_shape else None
  | LeakyReLU | Dropout _ | Activation _ => Some s
  | Conv2DTranspose filters _ strides =>
      match s with
      | [h; w; _] =>
          if (filters =? 0)%nat then None
          else Some [h * strides; w * strides; filters]%nat
      | _ => None
      end
  | Conv2D filters _ strides =>
      match s with
      | [h; w; _] =>
          if (filters =? 0)%nat then None
          else Some [(h + strides - 1) / strides;
                     (w + strides - 1) / strides; filters]%nat
      | _ => None
      end
  | Flatten => Some [fold_right Nat.mul 1 s]%nat
  end.

Fixpoint layers_output_shape (ls : list Layer) (s : list nat)
  : option (list nat) :=
  match ls with
  | [] => Some s
  | l :: rest =>
      match layer_output_shape l s with
      | Some s' => layers_output_shape rest s'
      | None => None
      end
  end.

(** [model.predict(batch).shape] for a batch of [b] samples. *)
Definition predict_shape (model : Sequential) (b : nat) : option (list nat) :=
  match layers_output_shape (layers model) (input_shape model) with
  | Some s => Some (b :: s)
  | None => None
  end.

Section Forward.

Local Open Scope R_scope.

(** What the trained kernels and biases of layer number [i] compute on a
    flattened sample; any function at all, since the weights are free. *)
Variable kernel : nat -> list R -> list R.








End Forward.

(** ** The trainer *)

(** [os.path.join(a, b)] for a relative [b]. *)
Definition ends_with_slash (a : string) : bool :=
  match get (String.length a - 1) a with
  | Some c => Ascii.eqb c "/"%char
  | None => false
  end.

Definition path_join (a b : string) : string :=
  if (String.length a =? 0)%nat || ends_with_slash a
  then (a ++ b)%string
  else (a ++ "/" ++ b)%string.

(** Python's [str(step)] for a step of [range]. *)
Definition str (step : nat) : string :=
  NilZero.string_of_uint (Nat.to_uint step).

(** The two paths [save_data] writes for a step. *)
Definition sample_paths (save_dir : string) (step : nat) : list string :=
  [ path_join save_dir ("generated_image" ++ str step ++ ".png");
    path_join save_dir ("real_image" ++ str step ++ ".png") ].

(** The test [step % save_intervals == 0] for a non-zero interval. *)
Definition checkpoint_step (save_intervals : Z) (step : nat) : bool :=
  (Z.of_nat step mod save_intervals =? 0)%Z.

(** The cell after the training run: the paths of the three model files,
    [discriminator.save], [generator.save] and [gan.save]. *)
Definition save_models (save_dir : string) : list string :=
  [ path_join save_dir "discriminator.h5";
    path_join save_dir "generator.h5";
    path_join save_dir "gan.h5" ].

(** The exceptions that can leave [train_gan]. *)
Inductive Exn : Type :=
| ZeroDivisionError   (* step % 0 *)
| ValueError          (* np.random.randint on an empty range, and others *)
| OSError             (* a file that cannot be written *)
| KerasError.         (* anything raised inside a Keras call *)

Section Trainer.

(** The weights of the two networks, together with whatever Keras keeps
    next to them (optimizer slots). *)
Variables GeneratorWeights DiscriminatorWeights : Type.
(** Batches of latent vectors and of images, the training set, and one
    picture as written to disk. *)
Variables Latents Images TrainSet Picture : Type.

(** [generator.predict]. *)
Variable predict : GeneratorWeights -> Latents -> Images.
(** [x_train[real_image_index]] and [np.concatenate]. *)
Variable take : TrainSet -> list nat -> Images.
Variable concatenate : Images -> Images -> Images.
(** The optimizer step and the loss of the discriminator's own training
    function on a batch. *)
Variable d_step :
  DiscriminatorWeights -> Images -> list Q -> DiscriminatorWeights.
Variable d_loss_of : DiscriminatorWeights -> Images -> list Q -> Loss.
(** The optimizer step of the chained model, split by the network whose
    weights it would move, and its loss. *)
Variable g_step :
  GeneratorWeights -> DiscriminatorWeights -> Latents -> list Q
  -> GeneratorWeights.
Variable g_step_on_discriminator :
  GeneratorWeights -> DiscriminatorWeights -> Latents -> list Q
  -> DiscriminatorWeights.
Variable a_loss_of :
  GeneratorWeights -> DiscriminatorWeights -> Latents -> list Q -> Loss.
(** [k_image.array_to_img(batch[0] * 255., scale=False)]. *)
Variable first_picture : Images -> Picture.
(** [x_train.shape[0]]. *)
Variable train_size : TrainSet -> nat.

(** Which calls into the libraries raise, and what. A call that raises
    leaves the weights as they were. The last field stands for all of
    [array_to_img(batch[0] * 255.)] and [img.save(path)]: an empty batch, a
    directory that does not exist, a disk that is full. *)
Record Faults : Type := {
  predict_raises : GeneratorWeights -> Latents -> option Exn;
  concatenate_raises : Images -> Images -> option Exn;
  discriminator_train_raises :
    DiscriminatorWeights -> Images -> list Q -> option Exn;
  gan_train_raises :
    GeneratorWeights -> DiscriminatorWeights -> Latents -> list Q
    -> option Exn;
  save_raises : string -> Images -> option Exn
}.

(** No call into Keras or numpy raises during training. *)
Definition training_calls_return (faults : Faults) : Prop :=
  (forall gw z, predict_raises faults gw z = None)
  /\ (forall a b, concatenate_raises faults a b = None)
  /\ (forall dw x y, discriminator_train_raises faults dw x y = None)
  /\ (forall gw dw z t, gan_train_raises faults gw dw z t = None).

(** No call raises at all: the samples can be written as well. *)
Definition quiet (faults : Faults) : Prop :=
  training_calls_return faults
  /\ (forall path batch, save_raises faults path batch = None).

(** The Python objects the three model handles share: the gan model holds
    the generator and the discriminator by reference, so there is one copy
    of each weight set and of each [trainable] attribute. *)
Record Store : Type := {
  generator_weights : GeneratorWeights;
  discriminator_weights : DiscriminatorWeights;
  generator_trainable : bool;
  discriminator_trainable : bool
}.

(** What [model.compile] fixes. Keras collects the trainable weights of a
    model when it is compiled, and [train_on_batch] moves exactly those: the
    values the [trainable] attributes have at compile time are kept for the
    lifetime of the compiled model, until it is compiled again. [lr] and
    [decay] are the settings of its RMSprop optimizer. *)
Record Compiled : Type := {
  network : Sequential;
  moves_generator : bool;
  moves_discriminator : bool;
  lr : Q;
  decay : Q;
  clipvalue : Q
}.

(** [build_discriminator]: a fresh model (trainable by default), compiled
    on its own. [initial] are the weights Keras draws for it. *)
Definition build_discriminator (height width channels depth : nat)
           (lr dropout decay : Q)
           (initial : DiscriminatorWeights) (s : Store)
  : Store * Compiled :=
  let s' := {| generator_weights := generator_weights s;
               discriminator_weights := initial;
               generator_trainable := generator_trainable s;
               discriminator_trainable := true |} in
  (s', {| network := discriminator_network height width channels depth
                                           dropout;
          moves_generator := false;
          moves_discriminator := discriminator_trainable s';
          lr := lr; decay := decay; clipvalue := 1 |}).

(** [build_gan]: clears [discriminator.trainable], chains the two models
    and compiles the chain. *)
Definition build_gan (latent_dim : nat) (generator : Sequential)
           (discriminator : Compiled) (lr decay : Q) (s : Store)
  : Store * Compiled :=
  let s' := {| generator_weights := generator_weights s;
               discriminator_weights := discriminator_weights s;
               generator_trainable := generator_trainable s;
               discriminator_trainable := false |} in
  (s', {| network :=
            {| input_shape := [latent_dim];
               layers := layers generator
                         ++ layers (network discriminator) |};
          moves_generator := generator_trainable s';
          moves_discriminator := discriminator_trainable s';
          lr := lr; decay := decay; clipvalue := 1 |}).

(** [discriminator.train_on_batch(images, labels)], when it returns. *)
Definition discriminator_train_on_batch
           (discriminator : Compiled) (s : Store)
           (images : Images) (labels : list Q) : Store * Loss :=
  let w := discriminator_weights s in
  ({| generator_weights := generator_weights s;
      discriminator_weights :=
        if moves_discriminator discriminator
        then d_step w images labels else w;
      generator_trainable := generator_trainable s;
      discriminator_trainable := discriminator_trainable s |},
   d_loss_of w images labels).

(** [gan.train_on_batch(latents, targets)], when it returns. *)
Definition gan_train_on_batch
           (gan : Compiled) (s : Store)
           (latents : Latents) (targets : list Q) : Store * Loss :=
  let gw := generator_weights s in
  let dw := discriminator_weights s in
  ({| generator_weights :=
        if moves_generator gan then g_step gw dw latents targets else gw;
      discriminator_weights :=
        if moves_discriminator gan
        then g_step_on_discriminator gw dw latents targets else dw;
      generator_trainable := generator_trainable s;
      discriminator_trainable := discriminator_trainable s |},
   a_loss_of gw dw latents targets).

(** The numpy draws of one iteration, in the order they are made. *)
Record Draws : Type := {
  latents_for_discriminator : Latents;   (* first np.random.normal *)
  real_image_index : list nat;           (* np.random.randint *)
  label_noise : list Q;                  (* np.random.random *)
  latents_for_generator : Latents        (* second np.random.normal *)
}.

(** What a run does that can be seen from outside, in order. An event is
    logged when the call it stands for has returned. *)
Inductive Event : Type :=
| Predicted (step : nat)
| DiscriminatorTrained (step : nat) (d_loss : Loss)
| GanTrained (step : nat) (a_loss : Loss)
| PrintedStep (step : nat)
| PrintedDiscriminatorLoss (d_loss : Loss)
| PrintedAdversarialLoss (a_loss : Loss)
| Saved (path : string) (img : Picture).

Record Run : Type := {
  store : Store;
  log : list Event
}.

Inductive Outcome : Type :=
| Done (r : Run)
| Raised (e : Exn) (r : Run).

(** The run an outcome carries. *)
Definition run_of (o : Outcome) : Run :=
  match o with
  | Done r => r
  | Raised _ r => r
  end.

Definition logged (r : Run) (events : list Event) : Run :=
  {| store := store r; log := log r ++ events |}.

Variable faults : Faults.

(** [save_data]: one generated and one real sample; the first write that
    fails ends it. *)
Definition save_data (step : nat) (generated_images real_images : Images)
           (save_dir : string) (r : Run) : Outcome :=
  let path :=
    path_join save_dir ("generated_image" ++ str step ++ ".png") in
  match save_raises faults path generated_images with
  | Some e => Raised e r
  | None =>
      let r := logged r [Saved path (first_picture generated_images)] in
      let path :=
        path_join save_dir ("real_image" ++ str step ++ ".png") in
      match save_raises faults path real_images with
      | Some e => Raised e r
      | None => Done (logged r [Saved path (first_picture real_images)])
      end
  end.

(** The body of the [for] loop of [train_gan], statement by statement.
    [np.random.randint(0, n, batch_size)] raises ValueError for [n = 0]
    unless no index is asked for. *)
Definition iteration (discriminator gan : Compiled) (x_train : TrainSet)
           (save_dir : option string) (batch_size : nat)
           (save_intervals : Z) (draws : nat -> Draws)
           (step : nat) (r : Run) : Outcome :=
  let d := draws step in
  let random_latent_vectors := latents_for_discriminator d in
  match predict_raises faults (generator_weights (store r))
                       random_latent_vectors with
  | Some e => Raised e r
  | None =>
  let generated_images :=
    predict (generator_weights (store r)) random_latent_vectors in
  let r := logged r [Predicted step] in
  if (train_size x_train =? 0)%nat && negb (batch_size =? 0)%nat
  then Raised ValueError r
  else
  let real_images := take x_train (real_image_index d) in
  match concatenate_raises faults generated_images real_images with
  | Some e => Raised e r
  | None =>
  let combined_images := concatenate generated_images real_images in
  let labels := assemble_labels batch_size in
  let labels := add_noise labels (label_noise d) in
  match discriminator_train_raises faults (discriminator_weights (store r))
                                   combined_images labels with
  | Some e => Raised e r
  | None =>
  let '(s1, d_loss) :=
    discriminator_train_on_batch discriminator (store r)
                                 combined_images labels in
  let r := {| store := s1;
              log := log r ++ [DiscriminatorTrained step d_loss] |} in
  let random_latent_vectors := latents_for_generator d in
  let misleading_targets := zeros batch_size in
  match gan_train_raises faults (generator_weights s1)
                         (discriminator_weights s1)
                         random_latent_vectors misleading_targets with
  | Some e => Raised e r
  | None =>
  let '(s2, a_loss) :=
    gan_train_on_batch gan s1 random_latent_vectors misleading_targets in
  let r := {| store := s2; log := log r ++ [GanTrained step a_loss] |} in
  if (save_intervals =? 0)%Z
  then Raised ZeroDivisionError r
  else if (Z.of_nat step mod save_intervals =? 0)%Z
  then
    let r := logged r [ PrintedStep step;
                        PrintedDiscriminatorLoss d_loss;
                        PrintedAdversarialLoss a_loss ] in
    match save_dir with
    | Some dir => save_data step generated_images real_images dir r
    | None => Done r
    end
  else Done r
  end end end end.

(** The loop itself: an exception ends it. *)
Fixpoint run_steps (body : nat -> Run -> Outcome) (steps : list nat)
         (r : Run) : Outcome :=
  match steps with
  | [] => Done r
  | step :: rest =>
      match body step r with
      | Done r' => run_steps body rest r'
      | Raised e r' => Raised e r'
      end
  end.

(** [train_gan]: [for step in range(iterations)]. The arguments are those
    of the notebook, followed by the numpy draws and the store the model
    handles point into. *)
Definition train_gan (discriminator : Compiled) (generator : Sequential)
           (gan : Compiled) (x_train : TrainSet) (iterations : Z)
           (save_dir : option string) (batch_size : nat)
           (save_intervals : Z) (save_weights : bool)
           (draws : nat -> Draws) (s : Store) : Outcome :=
  run_steps
    (iteration discriminator gan x_train save_dir batch_size
               save_intervals draws)
    (seq 0 (Z.to_nat iterations))
    {| store := s; log := [] |}.

(** *** The order of the two updates, as the specification words it

    "Update discriminator weights via one optimization step on the combined
    batch" (step 5), then "update generator weights via one optimization
    step on the adversarial objective" (step 7): the discriminator is
    always updated strictly before the generator within one iteration. The
    three functions below say this on stores, apart from [iteration]. *)

(** Step 5 on a store: fake images from the current generator, a real
    batch, noisy labels, one step of the discriminator. *)
Definition spec_discriminator_update
           (discriminator : Compiled) (x_train : TrainSet)
           (batch_size : nat) (draws : nat -> Draws)
           (step : nat) (s : Store) : Store :=
  let d := draws step in
  let generated_images :=
    predict (generator_weights s) (latents_for_discriminator d) in
  let real_images := take x_train (real_image_index d) in
  fst (discriminator_train_on_batch
         discriminator s
         (concatenate generated_images real_images)
         (add_noise (assemble_labels batch_size) (label_noise d))).

(** Step 7 on a store: one step of the chained model towards the target
    "real". *)
Definition spec_generator_update
           (gan : Compiled) (batch_size : nat) (draws : nat -> Draws)
           (step : nat) (s : Store) : Store :=
  fst (gan_train_on_batch gan s (latents_for_generator (draws step))
                          (zeros batch_size)).

(** One iteration: the generator update works on what the discriminator
    update left. *)
Definition spec_iteration
           (discriminator gan : Compiled) (x_train : TrainSet)
           (batch_size : nat) (draws : nat -> Draws)
           (step : nat) (s : Store) : Store :=
  spec_generator_update gan batch_size draws step
    (spec_discriminator_update discriminator x_train batch_size draws
                               step s).

(** The two losses of one iteration: the discriminator's on the weights
    the iteration starts from, the adversarial one on the weights the
    discriminator update left, "since the generator's adversarial loss
    depends on the discriminator's current weights". *)
Definition spec_discriminator_loss
           (discriminator : Compiled) (x_train : TrainSet)
           (batch_size : nat) (draws : nat -> Draws)
           (step : nat) (s : Store) : Loss :=
  let d := draws step in
  let generated_images :=
    predict (generator_weights s) (latents_for_discriminator d) in
  let real_images := take x_train (real_image_index d) in
  snd (discriminator_train_on_batch
         discriminator s
         (concatenate generated_images real_images)
         (add_noise (assemble_labels batch_size) (label_noise d))).

Definition spec_adversarial_loss
           (discriminator gan : Compiled) (x_train : TrainSet)
           (batch_size : nat) (draws : nat -> Draws)
           (step : nat) (s : Store) : Loss :=
  snd (gan_train_on_batch
         gan
         (spec_discriminator_update discriminator x_train batch_size draws
                                    step s)
         (latents_for_generator (draws step)) (zeros batch_size)).

(** The store after the iterations of [steps], in order. *)
Definition spec_training
           (discriminator gan : Compiled) (x_train : TrainSet)
           (batch_size : nat) (draws : nat -> Draws)
           (steps : list nat) (s : Store) : Store :=
  fold_left (fun s step =>
               spec_iteration discriminator gan x_train batch_size draws
                              step s)
            steps s.

(** *** Reading a log *)

(** Which network was trained, and in which step. *)
Inductive Trained : Type :=
| TrainedDiscriminator (step : nat)
| TrainedGenerator (step : nat).

(** The weight updates of a log, in the order they were made. *)
Definition training_order (l : list Event) : list Trained :=
  flat_map (fun e => match e with
                     | DiscriminatorTrained step _ =>
                         [TrainedDiscriminator step]
                     | GanTrained step _ => [TrainedGenerator step]
                     | _ => []
                     end) l.

(** Discriminator first, generator second, step after step. *)
Definition alternating (steps : list nat) : list Trained :=
  flat_map (fun step => [TrainedDiscriminator step; TrainedGenerator step])
           steps.

(** The losses that were printed. *)
Definition printed_discriminator_losses (l : list Event) : list Loss :=
  flat_map (fun e => match e with
                     | PrintedDiscriminatorLoss d_loss => [d_loss]
                     | _ => []
                     end) l.

Definition printed_adversarial_losses (l : list Event) : list Loss :=
  flat_map (fun e => match e with
                     | PrintedAdversarialLoss a_loss => [a_loss]
                     | _ => []
                     end) l.

(** The losses the training calls reported at the steps [step] with
    [step % save_intervals == 0]. *)
Definition checkpoint_discriminator_losses (save_intervals : Z)
           (l : list Event) : list Loss :=
  flat_map (fun e => match e with
                     | DiscriminatorTrained step d_loss =>
                         if checkpoint_step save_intervals step
                         then [d_loss] else []
                     | _ => []
                     end) l.

Definition checkpoint_adversarial_losses (save_intervals : Z)
           (l : list Event) : list Loss :=
  flat_map (fun e => match e with
                     | GanTrained step a_loss =>
                         if checkpoint_step save_intervals step
                         then [a_loss] else []
                     | _ => []
                     end) l.

(** The steps whose number was printed, and the paths written, in log
    order. *)
Definition printed_steps (l : list Event) : list nat :=
  flat_map (fun e => match e with
                     | PrintedStep step => [step]
                     | _ => []
                     end) l.

Definition saved_paths (l : list Event) : list string :=
  flat_map (fun e => match e with
                     | Saved path _ => [path]
                     | _ => []
                     end) l.

(** Cell 18 of the notebook: the discriminator is built and compiled
    first, the chained model after it. *)
Definition notebook_models (lr_d lr_g : Q)
           (initial_d : DiscriminatorWeights)
           (initial_g : GeneratorWeights)
  : Store * Compiled * Sequential * Compiled :=
  let s0 := {| generator_weights := initial_g;
               discriminator_weights := initial_d;
               generator_trainable := true;
               discriminator_trainable := true |} in
  let '(s1, discriminator) :=
    build_discriminator 64 64 3 64 lr_d 0.6 (1 # 100000000) initial_d s0 in
  let generator := build_generator 64 64 3 64 0.3 in
  let '(s2, gan) :=
    build_gan latent_dim generator discriminator lr_g (1 # 100000000) s1 in
  (s2, discriminator, generator, gan).

End Trainer.

(** ** Small instances, used to run the definitions *)

Module Toy.

(** A directory with one opaque 1x1 BGR file. *)
Definition glob_one (_ : string) : list string := ["a.png"%string].
Definition imread_bgr (_ : string) : Decoded :=
  Color (u8_image [[[10; 20; 30]%Z]]).

(** The same directory when the file is a 16-bit PNG. *)
Definition imread_bgr16 (_ : string) : Decoded :=
  Color (u16_image [[[65535; 256; 255]%Z]]).

(** A directory whose second file is zero-byte. *)
Definition glob_two (_ : string) : list string :=
  ["a.png"%string; "empty.png"%string].
Definition imread_second_empty (path : string) : Decoded :=
  if String.eqb path "empty.png" then Unreadable
  else Color (u8_image [[[10; 20; 30]%Z]]).

(** Nearest-neighbour stand-in for the interpolation: the top-left source
    pixel everywhere. *)
Definition interp_corner (src : Image) (_ : nat * nat) (_ _ k : nat) : Z :=
  nth k (hd [] (hd [] src)) 0%Z.

(** Two equally likely noise vectors for a batch of one generated and one
    real image. *)
Definition noise_dist : Dist (list Q) :=
  [ (1 # 2, [0; 1 # 2]); (1 # 2, [1 # 2; 0]) ].

(** The largest draw of [np.random.random], 1 - 2^-53, and the smallest
    positive one, as rationals and as floats. *)
Definition largest_draw : Q := (2 ^ 53 - 1) # (2 ^ 53).
Definition smallest_draw : Q := 1 # (2 ^ 53).
Definition largest_draw_float : float := PrimFloat.next_down 1%float.
Definition smallest_draw_float : float := (1 - largest_draw_float)%float.

(** The Python literal [0.05] as the float it denotes. *)
Definition literal_005 : float := 0x1.999999999999ap-5%float.

(** A framework whose discriminator weights count the optimizer steps
    applied to them, whose generator step adds the discriminator's count to
    the generator's, so that the order of the two updates shows in the
    weights, and whose losses are all NaN. *)
Definition predict (_ : nat) (_ : unit) : unit := tt.
Definition take (_ : unit) (_ : list nat) : unit := tt.
Definition concatenate (_ _ : unit) : unit := tt.
Definition d_step (w : nat) (_ : unit) (_ : list Q) : nat := S w.
Definition d_loss_of (_ : nat) (_ : unit) (_ : list Q) : Loss := NaN.
Definition g_step (gw dw : nat) (_ : unit) (_ : list Q) : nat :=
  S (gw + dw).
Definition g_step_on_discriminator (_ dw : nat) (_ : unit) (_ : list Q)
  : nat := S dw.
Definition a_loss_of (_ _ : nat) (_ : unit) (_ : list Q) : Loss := NaN.
Definition first_picture (_ : unit) : unit := tt.

(** Training sets: [tt] stands for an array of one image, the other for
    the empty array [get_images] returns for an empty directory. *)
Definition train_size (_ : unit) : nat := 1.
Definition empty_train_size (_ : unit) : nat := 0.

(** No call raises. *)
Definition no_faults : Faults nat nat unit unit :=
  {| predict_raises := fun _ _ => None;
     concatenate_raises := fun _ _ => None;
     discriminator_train_raises := fun _ _ _ => None;
     gan_train_raises := fun _ _ _ _ => None;
     save_raises := fun _ _ => None |}.

(** The directory to save into does not exist. *)
Definition missing_dir : Faults nat nat unit unit :=
  {| predict_raises := fun _ _ => None;
     concatenate_raises := fun _ _ => None;
     discriminator_train_raises := fun _ _ _ => None;
     gan_train_raises := fun _ _ _ _ => None;
     save_raises := fun _ _ => Some OSError |}.

Definition draws (_ : nat) : Draws unit :=
  {| latents_for_discriminator := tt;
     real_image_index := [0%nat];
     label_noise := [1 # 2; 1 # 4];
     latents_for_generator := tt |}.

Definition models
  : Store nat nat * Compiled * Sequential * Compiled :=
  notebook_models (2 # 100000) (8 # 10000) 0%nat 0%nat.

Definition initial_store : Store nat nat := fst (fst (fst models)).
Definition discriminator : Compiled := snd (fst (fst models)).
Definition generator : Sequential := snd (fst models).
Definition gan : Compiled := snd models.

(** [train_gan] on this framework with batches of one image. *)
Definition train_with (size : unit -> nat) (faults : Faults nat nat unit unit)
           (save_dir : option string) (save_intervals : Z)
           (save_weights : bool) (iterations : Z)
  : Outcome nat nat unit :=
  train_gan predict take concatenate d_step d_loss_of
            g_step g_step_on_discriminator a_loss_of first_picture
            size faults discriminator generator gan tt iterations
            save_dir 1 save_intervals save_weights draws initial_store.

Definition train : option string -> Z -> bool -> Z -> Outcome nat nat unit :=
  train_with train_size no_faults.

End Toy.

Module Sample.

(** A directory of three files: a BGRA image, a grey one, a zero-byte one. *)
Definition glob_three (_ : string) : list string :=
  ["a.png"%string; "grey.png"%string; "empty.png"%string].
Definition imread_three (path : string) : Decoded :=
  if String.eqb path "a.png" then Color (u8_image [[[10; 20; 30; 128]%Z]])
  else if String.eqb path "grey.png" then Gray [[7%Z]]
  else Unreadable.

(** A directory of two files, BGR and BGRA. *)
Definition glob_pair (_ : string) : list string :=
  ["a.png"%string; "b.png"%string].
Definition imread_pair (path : string) : Decoded :=
  if String.eqb path "a.png" then Color (u8_image [[[10; 20; 30]%Z]])
  else Color (u8_image [[[10; 20; 30; 128]%Z; [1; 2; 3; 0]%Z]]).

End Sample.

(** * Properties *)

(** ** Rounding to binary64 *)

Unset Implicit Arguments.

(** Rounding to an integer stays within the two neighbours. *)
Lemma rne_bounds (q : Q) : (Qfloor q <= F64.rne q <= Qfloor q + 1)%Z.
Proof.
  unfold F64.rne. cbv zeta.
  destruct (Qcompare _ _); [destruct (Z.even _)|..]; lia.
Qed.

(** It is monotone, and leaves integers alone. *)
Lemma rne_mono (q q' : Q) : q <= q' -> (F64.rne q <= F64.rne q')%Z.
Proof.
  intros Hle.
  pose proof (Qfloor_resp_le _ _ Hle) as Hf.
  pose proof (rne_bounds q) as Hb. pose proof (rne_bounds q') as Hb'.
  destruct (Z.eq_dec (Qfloor q) (Qfloor q')) as [E | NE]; [|lia].
  clear Hb Hb'. unfold F64.rne. cbv zeta. rewrite <- E.
  destruct (Qcompare_spec (q - inject_Z (Qfloor q)) (1 # 2)) as [H | H | H];
  destruct (Qcompare_spec (q' - inject_Z (Qfloor q)) (1 # 2)) as [H' | H' | H'];
    try (destruct (Z.even (Qfloor q))); try lia; exfalso; lra.
Qed.

Lemma rne_Z (z : Z) : F64.rne (inject_Z z) = z.
Proof.
  unfold F64.rne. cbv zeta. rewrite Qfloor_Z.
  destruct (Qcompare_spec (inject_Z z - inject_Z z) (1 # 2)) as [H | H | H];
    [exfalso; lra | reflexivity | exfalso; lra].
Qed.

Lemma two_pow_pos (e : Z) : 0 < 2 ^ e.
Proof. apply Qpower_0_lt. reflexivity. Qed.

Lemma two_pow_succ (e : Z) : 2 ^ (e + 1) == 2 * 2 ^ e.
Proof. rewrite Qpower_plus by discriminate. simpl (2 ^ 1). lra. Qed.

Lemma inject_two_pow (n : Z) : (0 <= n)%Z -> inject_Z (2 ^ n) == 2 ^ n.
Proof. intros H. now rewrite Zpower_Qpower. Qed.

(** [ilog2] is the binary exponent. *)
Lemma ilog2_spec (q : Q) :
  0 < q -> 2 ^ F64.ilog2 q <= q /\ q < 2 ^ (F64.ilog2 q + 1).
Proof.
  intros Hq. destruct q as [n d]. 
  assert (Hn : (0 < n)%Z) by (unfold Qlt in Hq; cbn in Hq; lia).
  unfold F64.ilog2. cbn [Qnum Qden].
  set (ln := Z.log2 n). set (ld := Z.log2 (Z.pos d)).
  pose proof (Z.log2_spec n Hn) as [Hn1 Hn2].
  pose proof (Z.log2_spec (Z.pos d) ltac:(lia)) as [Hd1 Hd2].
  fold ln in Hn1, Hn2. fold ld in Hd1, Hd2.
  assert (Hln : (0 <= ln)%Z) by apply Z.log2_nonneg.
  assert (Hld : (0 <= ld)%Z) by apply Z.log2_nonneg.
  assert (Eq : n # d == inject_Z n / inject_Z (Z.pos d)) by apply Qmake_Qdiv.
  assert (Hdpos : 0 < inject_Z (Z.pos d)) by (unfold Qlt; cbn; lia).
  (* bounds of n and d as rationals *)
  assert (Qn1 : 2 ^ ln <= inject_Z n).
  { rewrite <- inject_two_pow by lia. rewrite <- Zle_Qle. exact Hn1. }
  assert (Qn2 : inject_Z n < 2 ^ (ln + 1)).
  { rewrite <- inject_two_pow by lia. rewrite <- Zlt_Qlt.
    now rewrite <- Z.add_1_r in Hn2. }
  assert (Qd1 : 2 ^ ld <= inject_Z (Z.pos d)).
  { rewrite <- inject_two_pow by lia. rewrite <- Zle_Qle. exact Hd1. }
  assert (Qd2 : inject_Z (Z.pos d) < 2 ^ (ld + 1)).
  { rewrite <- inject_two_pow by lia. rewrite <- Zlt_Qlt.
    now rewrite <- Z.add_1_r in Hd2. }
  set (x := inject_Z n) in *. set (y := inject_Z (Z.pos d)) in *.
  assert (Hx : (n # d) * y == x).
  { rewrite Eq. field. lra. }
  pose proof (two_pow_pos ld) as Pld. pose proof (two_pow_pos (ln - ld)) as Pk.
  pose proof (two_pow_succ ld) as Sld. pose proof (two_pow_succ ln) as Sln.
  assert (Eln : 2 ^ ln == 2 ^ (ln - ld) * 2 ^ ld).
  { rewrite <- Qpower_plus by discriminate. now replace (ln - ld + ld)%Z with ln by lia. }
  set (k := (ln - ld)%Z) in *.
  assert (Ek1 : 2 ^ (k + 1) == 2 * 2 ^ k) by apply two_pow_succ.
  assert (Ek0 : 2 ^ k == 2 * 2 ^ (k - 1)).
  { rewrite <- two_pow_succ. now replace (k - 1 + 1)%Z with k by lia. }
  set (A := 2 ^ k) in *. set (B := 2 ^ ld) in *. set (q := n # d) in *.
  (* q < 2A and A/2 < q *)
  assert (Hup : q < 2 * A).
  { apply Qnot_le_lt. intros Hc.
    assert (2 * A * y <= q * y) by (apply Qmult_le_compat_r; lra).
    assert (2 * A * B <= 2 * A * y) by nra. nra. }
  assert (Hlo : A < 2 * q).
  { apply Qnot_le_lt. intros Hc.
    assert (2 * q * y <= A * y) by (apply Qmult_le_compat_r; lra).
    assert (A * y < A * (2 * B)) by nra. nra. }
  destruct (Qle_bool A q) eqn:Hb.
  - apply Qle_bool_iff in Hb. split; [exact Hb|]. fold k. rewrite Ek1. exact Hup.
  - assert (Hlt : q < A).
    { apply Qnot_le_lt. intros Hc. apply Qle_bool_iff in Hc. congruence. }
    replace (k - 1 + 1)%Z with k by lia. fold A. split; [|exact Hlt].
    set (C := 2 ^ (k - 1)) in *. lra.
Qed.

Lemma ilog2_mono (x y : Q) : 0 < x -> x <= y -> (F64.ilog2 x <= F64.ilog2 y)%Z.
Proof.
  intros Hx Hxy.
  destruct (ilog2_spec x Hx) as [Hx1 _].
  destruct (ilog2_spec y ltac:(lra)) as [_ Hy2].
  assert (H : 2 ^ F64.ilog2 x < 2 ^ (F64.ilog2 y + 1)) by lra.
  apply Qpower_lt_compat_l_inv in H; [lia | reflexivity].
Qed.

(** A rounded number stays in the binade of its argument, ends
    included. *)
Lemma round_pos_bounds (q : Q) :
  0 < q ->
  2 ^ F64.ilog2 q <= F64.round_pos q /\ F64.round_pos q <= 2 ^ (F64.ilog2 q + 1).
Proof.
  intros Hq. destruct (ilog2_spec q Hq) as [H1 H2].
  unfold F64.round_pos. cbv zeta.
  set (L := F64.ilog2 q) in *. set (e := (L - 52)%Z).
  pose proof (two_pow_pos e) as Pe.
  assert (EL : 2 ^ L == 2 ^ 52 * 2 ^ e).
  { rewrite <- Qpower_plus by discriminate. now replace (52 + e)%Z with L by lia. }
  assert (EL1 : 2 ^ (L + 1) == 2 ^ 53 * 2 ^ e).
  { rewrite <- Qpower_plus by discriminate. now replace (53 + e)%Z with (L + 1)%Z by lia. }
  assert (Hq1 : inject_Z (2 ^ 52) <= q / 2 ^ e).
  { apply Qle_shift_div_l; [exact Pe|]. rewrite inject_two_pow by lia. lra. }
  assert (Hq2 : q / 2 ^ e <= inject_Z (2 ^ 53)).
  { apply Qle_shift_div_r; [exact Pe|]. rewrite inject_two_pow by lia. lra. }
  apply rne_mono in Hq1, Hq2. rewrite rne_Z in Hq1, Hq2.
  rewrite Zle_Qle in Hq1, Hq2.
  rewrite inject_two_pow in Hq1, Hq2 by lia.
  set (m := inject_Z (F64.rne (q / 2 ^ e))) in *.
  rewrite EL, EL1. split; apply Qmult_le_compat_r; lra.
Qed.

Lemma round_pos_pos (q : Q) : 0 < q -> 0 < F64.round_pos q.
Proof.
  intros Hq. destruct (round_pos_bounds q Hq) as [H _].
  pose proof (two_pow_pos (F64.ilog2 q)). lra.
Qed.

Lemma round_pos_mono (x y : Q) :
  0 < x -> x <= y -> F64.round_pos x <= F64.round_pos y.
Proof.
  intros Hx Hxy.
  assert (Hy : 0 < y) by lra.
  pose proof (ilog2_mono x y Hx Hxy) as HL.
  destruct (Z.eq_dec (F64.ilog2 x) (F64.ilog2 y)) as [E | NE].
  - unfold F64.round_pos. cbv zeta. rewrite <- E.
    set (e := (F64.ilog2 x - 52)%Z). pose proof (two_pow_pos e) as Pe.
    apply Qmult_le_compat_r; [|lra].
    rewrite <- Zle_Qle. apply rne_mono.
    apply Qmult_le_compat_r; [exact Hxy|].
    apply Qlt_le_weak, Qinv_lt_0_compat, Pe.
  - destruct (round_pos_bounds x Hx) as [_ Hxb].
    destruct (round_pos_bounds y Hy) as [Hyb _].
    assert (2 ^ (F64.ilog2 x + 1) <= 2 ^ F64.ilog2 y).
    { apply Qpower_le_compat_l; [lia | discriminate]. }
    lra.
Qed.

(** Rounding to binary64 is monotone. *)
Lemma round_mono (x y : Q) : x <= y -> F64.round x <= F64.round y.
Proof.
  intros Hxy. unfold F64.round.
  destruct (Qcompare_spec x 0) as [Ex | Lx | Gx];
  destruct (Qcompare_spec y 0) as [Ey | Ly | Gy]; try (exfalso; lra).
  - lra.
  - pose proof (round_pos_pos y Gy). lra.
  - pose proof (round_pos_pos (- x) ltac:(lra)). lra.
  - pose proof (round_pos_mono (- y) (- x) ltac:(lra) ltac:(lra)). lra.
  - pose proof (round_pos_pos (- x) ltac:(lra)).
    pose proof (round_pos_pos y Gy). lra.
  - now apply round_pos_mono.
Qed.

(** Hence it does not depend on how a rational is written. *)
Lemma round_compat (x y : Q) : x == y -> F64.round x == F64.round y.
Proof.
  intros E. apply Qle_antisym; apply round_mono; lra.
Qed.

Set Implicit Arguments.

(** The constants of the label arithmetic, evaluated. *)
Lemma round_constants :
  F64.round 0 == 0 /\ F64.round 1 == 1
  /\ c05 == 3602879701896397 # 72057594037927936
  /\ F64.round c05 == c05
  /\ F64.round (0 + c05) == c05
  /\ F64.round 1.05 == 4728779608739021 # 4503599627370496.
Proof. repeat split; vm_compute; reflexivity. Qed.

(** The rational model agrees with the hardware arithmetic where the label
    computation is most delicate: the literal 0.05, and the product and
    the sum at the largest and at the smallest positive draw. *)
Lemma round_agrees_with_floats :
  F64.to_Q Toy.literal_005 == c05
  /\ F64.to_Q Toy.largest_draw_float == Toy.largest_draw
  /\ F64.to_Q Toy.smallest_draw_float == Toy.smallest_draw
  /\ F64.to_Q (Toy.literal_005 * Toy.largest_draw_float)%float
     == noise_term Toy.largest_draw
  /\ F64.to_Q (1 + Toy.literal_005 * Toy.largest_draw_float)%float
     == F64.round (1 + noise_term Toy.largest_draw)
  /\ F64.to_Q (Toy.literal_005 * Toy.smallest_draw_float)%float
     == noise_term Toy.smallest_draw
  /\ F64.to_Q (1 + Toy.literal_005 * Toy.smallest_draw_float)%float
     == F64.round (1 + noise_term Toy.smallest_draw).
Proof. repeat split; vm_compute; reflexivity. Qed.

(** ** Image loader *)

Lemma saturate_cast_range (d : Depth) (v : Z) :
  (0 <= saturate_cast d v <= depth_max d)%Z.
Proof. unfold saturate_cast. destruct d; cbn; lia. Qed.

Lemma shape3_map3 {A B : Type} (f : A -> B) (img : Array3 A) :
  shape3 (map (map (map f)) img) = shape3 img.
Proof.
  unfold shape3.
  destruct img as [|row rest]; [reflexivity|].
  destruct row as [|px row]; [cbn; now rewrite length_map|].
  cbn. now rewrite !length_map.
Qed.

Lemma all3_map3 {A B : Type} (P : A -> Prop) (Q' : B -> Prop) (f : A -> B)
      (img : Array3 A) :
  (forall a, P a -> Q' (f a)) ->
  all3 P img -> all3 Q' (map (map (map f)) img).
Proof.
  intros Hf Himg. unfold all3 in *.
  rewrite Forall_map.
  eapply Forall_impl; [|exact Himg].
  intros row Hrow. rewrite Forall_map.
  eapply Forall_impl; [|exact Hrow].
  intros px Hpx. rewrite Forall_map.
  eapply Forall_impl; [|exact Hpx].
  exact Hf.
Qed.

Lemma scaled_u8_in_unit (v : Z) :
  is_u8 v -> 0 <= inject_Z v / 255 /\ inject_Z v / 255 <= 1.
Proof.
  intros [Hlo Hhi].
  assert (H0 : 0 <= inject_Z v) by (unfold Qle; cbn; lia).
  assert (H1 : inject_Z v <= 255) by (unfold Qle; cbn; lia).
  split.
  - apply Qle_shift_div_l; [reflexivity|]. lra.
  - apply Qle_shift_div_r; [reflexivity|]. lra.
Qed.

Section LoaderFacts.

Variable glob : string -> list string.
Variable imread : string -> Decoded.
Variable interp : Image -> nat * nat -> nat -> nat -> nat -> Z.

(** The channel count that reaches [cv2.resize] is three, and the dtype is
    the one that entered [cv2.cvtColor]. *)
Lemma cvtColor_channels (img img' : Raster) :
  cvtColor_BGR2RGB img = inr img' ->
  depth img' = depth img
  /\ (fst (fst (shape3 (pixels img'))) <> 0%nat ->
      snd (fst (shape3 (pixels img'))) <> 0%nat ->
      snd (shape3 (pixels img')) = 3%nat).
Proof.
  unfold cvtColor_BGR2RGB.
  destruct (_ || _) eqn:Hscn; [|discriminate].
  intros [= <-]. cbn [depth pixels]. split; [reflexivity|].
  destruct img as [d [|row rest]]; cbn in *; [congruence|].
  destruct row as [|px row]; cbn in *; [congruence|].
  intros _ _.
  destruct px as [|b [|g [|r [|a [|x px]]]]]; cbn in *;
    try discriminate; reflexivity.
Qed.

(** [cv2.resize] returns [snd dsize] rows of [fst dsize] pixels, with the
    channel count and the dtype of its source, and entries that fit that
    dtype. *)
Lemma resize_shape (src out : Raster) (dwidth dheight : nat) :
  resize interp src (dwidth, dheight) = inr out ->
  shape3 (pixels out) = (dheight, dwidth, snd (shape3 (pixels src)))
  /\ depth out = depth src
  /\ all3 (fun v => (0 <= v <= depth_max (depth src))%Z) (pixels out)
  /\ fst (fst (shape3 (pixels src))) <> 0%nat
  /\ snd (fst (shape3 (pixels src))) <> 0%nat.
Proof.
  unfold resize.
  destruct (shape3 (pixels src)) as [[rows cols] chans] eqn:Hs.
  destruct (_ || _) eqn:Hz; [discriminate|].
  intros [= <-].
  repeat (apply orb_false_iff in Hz; destruct Hz as [Hz ?]).
  repeat match goal with
         | H : (_ =? _)%nat = false |- _ => apply Nat.eqb_neq in H
         end.
  cbn [fst snd depth pixels].
  split; [|split; [reflexivity|split; [|split; assumption]]].
  - unfold shape3. rewrite length_map, length_seq.
    destruct dheight as [|dh]; [congruence|].
    destruct dwidth as [|dw]; [congruence|].
    cbn. now rewrite !length_map, !length_seq.
  - unfold all3. rewrite Forall_map. apply Forall_forall. intros r _.
    rewrite Forall_map. apply Forall_forall. intros c _.
    rewrite Forall_map. apply Forall_forall. intros k _.
    apply saturate_cast_range.
Qed.

(** What one pass of the loop body hands over: [width] rows of [height]
    pixels of three channels, with entries that fit the dtype; the dtype is
    uint8 when the file had four channels or was an 8-bit one. *)
Lemma load_raster_shape (path : string) (height width : nat) (out : Raster) :
  load_raster imread interp path height width = inr out ->
  shape3 (pixels out) = (width, height, 3%nat)
  /\ all3 (fun v => (0 <= v <= depth_max (depth out))%Z) (pixels out)
  /\ ((forall img, imread path = Color img -> depth img = U8) ->
      depth out = U8).
Proof.
  unfold load_raster.
  destruct (imread path) as [| g | img]; try discriminate.
  set (img0 := if (snd (shape3 (pixels img)) =? 4)%nat then _ else _).
  unfold bind.
  destruct (cvtColor_BGR2RGB img0) as [e | rgb] eqn:Hcvt; [discriminate|].
  intros Hres.
  apply resize_shape in Hres.
  destruct Hres as (Hshape & Hdepth & Hrange & Hrows & Hcols).
  destruct (cvtColor_channels _ Hcvt) as [Hd Hch].
  rewrite (Hch Hrows Hcols) in Hshape.
  split; [assumption|]. split.
  - now rewrite Hdepth.
  - intros H8. rewrite Hdepth, Hd. subst img0.
    destruct (_ =? _)%nat; [reflexivity|]. now apply H8.
Qed.

Lemma load_image_shape (path : string) (height width : nat) (out : Image) :
  load_image imread interp path height width = inr out ->
  shape3 out = (width, height, 3%nat)
  /\ ((forall img, imread path = Color img -> depth img = U8) ->
      all3 is_u8 out).
Proof.
  unfold load_image, bind.
  destruct (load_raster imread interp path height width) as [e | r] eqn:Hr;
    [discriminate|].
  intros [= <-].
  destruct (load_raster_shape _ _ _ Hr) as (Hshape & Hrange & Hdepth).
  split; [assumption|].
  intros H8. rewrite (Hdepth H8) in Hrange. exact Hrange.
Qed.

Lemma load_all_shape (paths : list string) (height width : nat) :
  forall images,
    load_all imread interp paths height width = inr images ->
    Forall (fun img => shape3 img = (width, height, 3%nat)) images
    /\ ((forall path img,
            In path paths -> imread path = Color img -> depth img = U8) ->
        Forall (all3 is_u8) images).
Proof.
  induction paths as [|p rest IH]; cbn; intros images.
  - intros [= <-]. split; constructor.
  - unfold bind.
    destruct (load_image imread interp p height width) as [e | img] eqn:Hp;
      [discriminate|].
    destruct (load_all imread interp rest height width) as [e | imgs];
      [discriminate|].
    intros [= <-].
    destruct (load_image_shape _ _ _ Hp) as [Hshape Hrange].
    destruct (IH _ eq_refl) as [IHshape IHrange].
    split.
    + constructor; assumption.
    + intros H8. constructor.
      * apply Hrange. intros img0. apply H8. now left.
      * apply IHrange. intros path img0 Hin. apply H8. now right.
Qed.

(** One unreadable file among the paths ends the loop with an exception. *)
Lemma load_all_unreadable (paths : list string) (height width : nat)
      (path : string) :
  In path paths -> imread path = Unreadable ->
  exists e, load_all imread interp paths height width = inl e.
Proof.
  intros Hin Hnone.
  induction paths as [|p rest IH]; [contradiction|].
  cbn. unfold bind.
  destruct (load_image imread interp p height width) as [e | img] eqn:Hp.
  - now exists e.
  - destruct Hin as [-> | Hin].
    + unfold load_image, load_raster in Hp. rewrite Hnone in Hp.
      discriminate.
    + destruct (IH Hin) as [e He]. rewrite He. now exists e.
Qed.

End LoaderFacts.

(** C3, as stated, fails twice. Asked for height 2 and width 3, the loader
    returns an image of 3 rows and 2 columns, because the target size
    reaches [cv2.resize] as [(height, width)] where OpenCV reads
    (width, height). And a 16-bit file keeps its 16-bit entries, which the
    division by 255 leaves far above 1. *)
Lemma get_images_shape_height_width_cex :
  (exists arr img,
     get_images Toy.glob_one Toy.imread_bgr Toy.interp_corner "d" 2 3
     = inr arr
     /\ In img arr
     /\ shape3 img <> (2, 3, 3)%nat)
  /\ get_images Toy.glob_one Toy.imread_bgr16 Toy.interp_corner "d" 1 1
     = inr [[[[255 # 255; 256 # 255; 65535 # 255]]]]
  /\ ~ (65535 # 255 <= 1).
Proof.
  split; [|split].
  - eexists. eexists. split; [vm_compute; reflexivity|].
    split; [left; reflexivity|].
    vm_compute. discriminate.
  - vm_compute; reflexivity.
  - vm_compute. intros H. now apply H.
Qed.

(** C3, amended: whenever [get_images] returns, every image of the returned
    array has shape (width, height, 3), that is [width] rows of [height]
    pixels; and when the files read are 8-bit ones, every entry lies in
    [0, 1]. *)
Theorem get_images_shape_and_range
        (glob : string -> list string) (imread : string -> Decoded)
        (interp : Image -> nat * nat -> nat -> nat -> nat -> Z)
        (image_dir : string) (height width : nat) (arr : list (Array3 Q)) :
  get_images glob imread interp image_dir height width = inr arr ->
  Forall (fun img => shape3 img = (width, height, 3%nat)) arr
  /\ ((forall path img,
          In path (glob image_dir) -> imread path = Color img ->
          depth img = U8) ->
      Forall (all3 (fun v => 0 <= v /\ v <= 1)) arr).
Proof.
  unfold get_images, bind.
  destruct (load_all imread interp (glob image_dir) height width)
    as [e | images] eqn:Hload; [discriminate|].
  intros [= <-].
  apply load_all_shape in Hload. destruct Hload as [Hshape Hrange].
  unfold scale. split.
  - rewrite Forall_map. eapply Forall_impl; [|exact Hshape].
    intros img Himg. now rewrite shape3_map3.
  - intros H8. rewrite Forall_map.
    eapply Forall_impl; [|exact (Hrange H8)].
    intros img Hu8. eapply all3_map3; [|exact Hu8]. exact scaled_u8_in_unit.
Qed.

Lemma get_images_shape_and_range_witness :
  exists arr,
    get_images Toy.glob_one Toy.imread_bgr Toy.interp_corner "d" 2 3 = inr arr
    /\ Forall (fun img => shape3 img = (3, 2, 3)%nat) arr
    /\ Forall (all3 (fun v => 0 <= v /\ v <= 1)) arr.
Proof.
  eexists. split; [vm_compute; reflexivity|].
  destruct (get_images_shape_and_range
              Toy.glob_one Toy.imread_bgr Toy.interp_corner "d" 2 3
              ltac:(vm_compute; reflexivity)) as [Hshape Hrange].
  split; [exact Hshape|].
  apply Hrange. intros path img _ H. vm_compute in H.
  injection H as <-. reflexivity.
Defined.

Lemma u8_values_complete (v : Z) : is_u8 v -> In v u8_values.
Proof.
  intros [Hlo Hhi]. unfold u8_values.
  apply in_map_iff. exists (Z.to_nat v). split; [lia|].
  apply in_seq. lia.
Qed.

(** Under a fully opaque pixel the source value comes back, or the value
    just below it: the float64 product [v * (1 / 255.0) * 255.0] can fall
    short of [v], and [np.uint8] cuts the fraction off. *)
Lemma composite_opaque (background_color v : Z) :
  is_u8 background_color -> is_u8 v ->
  composite background_color v 255 = v
  \/ composite background_color v 255 = (v - 1)%Z.
Proof.
  intros Hb Hv.
  apply u8_values_complete in Hb. apply u8_values_complete in Hv.
  assert (Hall :
    forallb (fun bg =>
      forallb (fun x =>
        let o := composite bg x 255 in
        ((o =? x) || (o =? x - 1))%Z) u8_values) u8_values = true)
    by (vm_compute; reflexivity).
  rewrite forallb_forall in Hall. specialize (Hall _ Hb).
  rewrite forallb_forall in Hall. specialize (Hall _ Hv).
  cbv zeta in Hall. apply orb_true_iff in Hall.
  destruct Hall as [H | H]; apply Z.eqb_eq in H; auto.
Qed.

(** Under a fully transparent pixel the white background that [get_images]
    asks for comes back exactly. *)
Lemma composite_transparent_white (v : Z) :
  is_u8 v -> composite 255 v 0 = 255%Z.
Proof.
  intros Hv. apply u8_values_complete in Hv.
  assert (Hall :
    forallb (fun x => (composite 255 x 0 =? 255)%Z) u8_values = true)
    by (vm_compute; reflexivity).
  rewrite forallb_forall in Hall.
  apply Z.eqb_eq. now apply Hall.
Qed.

(** The background colours a fully transparent pixel does not reproduce. *)
Lemma composite_transparent_misses :
  filter (fun bg => negb (composite bg 0 0 =? bg)%Z) u8_values
  = [33; 37; 41; 45; 49; 53; 57; 61; 66; 74; 82; 90; 98; 106; 114; 122;
     132; 148; 164; 180; 196; 212; 228; 244]%Z.
Proof. vm_compute; reflexivity. Qed.

(** C5, at a failing input: a fully transparent pixel composited onto the
    background colour 33 comes out as 32 in every channel, not as 33. *)
Theorem remove_transparency_background_33 :
  remove_transparency [[[10; 20; 30; 0]%Z]] 33 = [[[32; 32; 32]%Z]].
Proof. vm_compute; reflexivity. Qed.

(** C8: if a path matched by the pattern cannot be read, [get_images] ends
    with an exception and returns no array. *)
Theorem get_images_unreadable_aborts
        (glob : string -> list string) (imread : string -> Decoded)
        (interp : Image -> nat * nat -> nat -> nat -> nat -> Z)
        (image_dir : string) (height width : nat) (image_path : string) :
  In image_path (glob image_dir) ->
  imread image_path = Unreadable ->
  exists e, get_images glob imread interp image_dir height width = inl e.
Proof.
  intros Hin Hnone.
  destruct (load_all_unreadable imread interp (glob image_dir)
                                height width image_path Hin Hnone)
    as [e He].
  exists e. unfold get_images, bind. now rewrite He.
Qed.

Lemma get_images_unreadable_aborts_witness :
  In "empty.png"%string (Toy.glob_two "d")
  /\ Toy.imread_second_empty "empty.png" = Unreadable
  /\ exists e,
       get_images Toy.glob_two Toy.imread_second_empty Toy.interp_corner
                  "d" 64 64 = inl e.
Proof.
  split; [right; left; reflexivity|].
  split; [reflexivity|].
  apply (get_images_unreadable_aborts
           Toy.glob_two Toy.imread_second_empty Toy.interp_corner
           "d" 64 64 "empty.png").
  - right; left; reflexivity.
  - reflexivity.
Defined.

(** ** Image loader: when it returns, and what *)

Lemma channels_give_rows_and_cols {A : Type} (img : Array3 A) :
  snd (shape3 img) <> 0%nat ->
  fst (fst (shape3 img)) <> 0%nat /\ snd (fst (shape3 img)) <> 0%nat.
Proof.
  destruct img as [|[|px row] rest]; cbn; intros H; try congruence.
  split; discriminate.
Qed.

Lemma composite_pixel_length (background_color : Z) (px : list Z) :
  (3 <= length px)%nat ->
  length (composite_pixel background_color px) = 3%nat.
Proof.
  intros H. unfold composite_pixel.
  rewrite length_map, length_firstn. lia.
Qed.

Lemma to_uint8_range (x : float) : is_u8 (F64.to_uint8 x).
Proof.
  unfold is_u8, F64.to_uint8.
  pose proof (Z.mod_pos_bound (F64.trunc x) 256). lia.
Qed.

Lemma remove_transparency_bytes (source : Image) (background_color : Z) :
  all3 is_u8 (remove_transparency source background_color).
Proof.
  unfold all3, remove_transparency.
  rewrite Forall_map. apply Forall_forall. intros row _.
  rewrite Forall_map. apply Forall_forall. intros px _.
  unfold composite_pixel. rewrite Forall_map.
  apply Forall_forall. intros v _. apply to_uint8_range.
Qed.

(** X4: on a four-channel image [remove_transparency] keeps the rows and
    columns and returns three channels, and every entry of the result is a
    byte, whatever the background colour. *)
Theorem remove_transparency_shape_bytes
        (source : Image) (background_color : Z) (rows cols : nat) :
  shape3 source = (rows, cols, 4%nat) ->
  shape3 (remove_transparency source background_color)
  = (rows, cols, 3%nat)
  /\ all3 is_u8 (remove_transparency source background_color).
Proof.
  intros Hshape. split; [|apply remove_transparency_bytes].
  destruct source as [|[|px row] rest]; cbn in Hshape; try discriminate.
  injection Hshape as Hr Hc Hpx.
  unfold remove_transparency, shape3. cbn [map hd length].
  rewrite !length_map, composite_pixel_length by lia.
  now rewrite Hr, Hc.
Qed.

Lemma remove_transparency_shape_bytes_witness :
  shape3 [[[10; 20; 30; 128]%Z; [1; 2; 3; 0]%Z]] = (1, 2, 4)%nat
  /\ shape3 (remove_transparency [[[10; 20; 30; 128]%Z; [1; 2; 3; 0]%Z]] 255)
     = (1, 2, 3)%nat.
Proof.
  split; [reflexivity|].
  exact (proj1 (@remove_transparency_shape_bytes
                  [[[10; 20; 30; 128]%Z; [1; 2; 3; 0]%Z]] 255 1 2
                  eq_refl)).
Defined.

Section LoaderReturns.

Variable glob : string -> list string.
Variable imread : string -> Decoded.
Variable interp : Image -> nat * nat -> nat -> nat -> nat -> Z.

Lemma cvtColor_returns (img : Raster) :
  snd (shape3 (pixels img)) = 3%nat \/ snd (shape3 (pixels img)) = 4%nat ->
  exists rgb,
    cvtColor_BGR2RGB img = inr rgb
    /\ shape3 (pixels rgb)
       = (fst (fst (shape3 (pixels img))), snd (fst (shape3 (pixels img))),
          3%nat).
Proof.
  intros Hch. unfold cvtColor_BGR2RGB.
  replace ((snd (shape3 (pixels img)) =? 3)%nat
           || (snd (shape3 (pixels img)) =? 4)%nat)
    with true
    by (symmetry; apply orb_true_iff;
        destruct Hch as [-> | ->]; [left | right]; reflexivity).
  eexists. split; [reflexivity|]. cbn [pixels].
  destruct img as [d [|[|px row] rest]];
    cbn [pixels shape3 fst snd hd length] in *; try lia.
  unfold shape3. cbn [map hd length fst snd].
  rewrite !length_map, length_rev, length_firstn.
  repeat f_equal. lia.
Qed.

Lemma resize_returns (src : Raster) (dwidth dheight : nat) :
  dwidth <> 0%nat -> dheight <> 0%nat ->
  fst (fst (shape3 (pixels src))) <> 0%nat ->
  snd (fst (shape3 (pixels src))) <> 0%nat ->
  exists out, resize interp src (dwidth, dheight) = inr out.
Proof.
  unfold resize.
  destruct (shape3 (pixels src)) as [[rows cols] chans]. cbn [fst snd].
  intros Hw Hh Hr Hc.
  apply Nat.eqb_neq in Hw, Hh, Hr, Hc. rewrite Hw, Hh, Hr, Hc.
  eexists. reflexivity.
Qed.

Lemma resize_sizes (src out : Raster) (dwidth dheight : nat) :
  resize interp src (dwidth, dheight) = inr out ->
  dwidth <> 0%nat /\ dheight <> 0%nat.
Proof.
  unfold resize.
  destruct (shape3 (pixels src)) as [[rows cols] chans].
  destruct dwidth, dheight; cbn; try discriminate. intros _. split; lia.
Qed.

Lemma load_image_of_raster (path : string) (height width : nat) :
  (exists img, load_image imread interp path height width = inr img)
  <-> (exists r, load_raster imread interp path height width = inr r).
Proof.
  unfold load_image, bind.
  destruct (load_raster imread interp path height width) as [e | r].
  - split; intros [? H]; discriminate.
  - split; intros _; eexists; reflexivity.
Qed.

(** The loop body goes through for a path exactly when the file decodes to
    three or four channels and neither target size is zero. *)
Lemma load_image_returns_iff (path : string) (height width : nat) :
  (exists img, load_image imread interp path height width = inr img)
  <-> loadable (imread path) = true
      /\ height <> 0%nat /\ width <> 0%nat.
Proof.
  rewrite load_image_of_raster.
  unfold load_raster, loadable.
  destruct (imread path) as [| g | img].
  - split; [intros [? H]; discriminate | intros [H _]; discriminate].
  - split; [intros [? H]; discriminate | intros [H _]; discriminate].
  - set (img0 := if (snd (shape3 (pixels img)) =? 4)%nat
                 then u8_image (remove_transparency (pixels img) 255)
                 else img).
    unfold bind. split.
    + intros [out Hout].
      destruct (cvtColor_BGR2RGB img0) as [e | rgb] eqn:Hcvt;
        [discriminate|].
      apply resize_sizes in Hout. split; [|exact Hout].
      destruct (snd (shape3 (pixels img)) =? 4)%nat eqn:H4.
      * apply orb_true_r.
      * subst img0. unfold cvtColor_BGR2RGB in Hcvt. rewrite H4 in Hcvt.
        destruct (snd (shape3 (pixels img)) =? 3)%nat;
          [reflexivity | discriminate].
    + intros (Hch & Hh & Hw).
      assert (Hch0 : snd (shape3 (pixels img0)) = 3%nat
                     \/ snd (shape3 (pixels img0)) = 4%nat).
      { subst img0. destruct (snd (shape3 (pixels img)) =? 4)%nat eqn:H4.
        - apply Nat.eqb_eq in H4.
          destruct (shape3 (pixels img)) as [[rows cols] chans] eqn:Hs.
          cbn in H4. subst chans.
          left. cbn [u8_image pixels].
          now rewrite (proj1 (remove_transparency_shape_bytes 255 Hs)).
        - apply orb_true_iff in Hch.
          destruct Hch as [H | H]; [|discriminate].
          apply Nat.eqb_eq in H. now left. }
      destruct (@cvtColor_returns img0 Hch0) as (rgb & -> & Hshape).
      apply resize_returns; try assumption.
      * rewrite Hshape. cbn.
        apply (channels_give_rows_and_cols (pixels img0)). lia.
      * rewrite Hshape. cbn.
        apply (channels_give_rows_and_cols (pixels img0)). lia.
Qed.

Lemma load_all_returns_iff (paths : list string) (height width : nat) :
  (exists images, load_all imread interp paths height width = inr images)
  <-> forallb (fun p => loadable (imread p)) paths = true
      /\ (paths = [] \/ (height <> 0%nat /\ width <> 0%nat)).
Proof.
  induction paths as [|p rest IH]; cbn [load_all forallb].
  - split; [intros _; split; [reflexivity | now left] | intros _].
    now exists [].
  - unfold bind. split.
    + intros [images Himages].
      destruct (load_image imread interp p height width) as [e | img] eqn:Hp;
        [discriminate|].
      destruct (load_all imread interp rest height width) as [e | imgs];
        [discriminate|].
      destruct (proj1 (load_image_returns_iff p height width))
        as (Hl & Hh & Hw); [now exists img|].
      destruct (proj1 IH) as [Hrest _]; [now exists imgs|].
      rewrite Hl, Hrest. split; [reflexivity | right; now split].
    + intros [Hall [Hnil | Hsizes]]; [discriminate|].
      apply andb_true_iff in Hall. destruct Hall as [Hl Hrest].
      destruct (proj2 (load_image_returns_iff p height width))
        as [img ->]; [now split|].
      destruct (proj2 IH) as [imgs ->]; [split; [exact Hrest | now right]|].
      now eexists.
Qed.

(** X1: [get_images] returns an array exactly when every matched file
    decodes to a rank-3 array of three or four channels and, unless nothing
    matched, neither target size is zero; in every other case it raises. *)
Theorem get_images_returns_iff
        (image_dir : string) (height width : nat) :
  (exists arr, get_images glob imread interp image_dir height width = inr arr)
  <-> forallb (fun p => loadable (imread p)) (glob image_dir) = true
      /\ (glob image_dir = [] \/ (height <> 0%nat /\ width <> 0%nat)).
Proof.
  rewrite <- load_all_returns_iff. unfold get_images, bind.
  destruct (load_all imread interp (glob image_dir) height width)
    as [e | images].
  - split; intros [? H]; discriminate.
  - split; intros _; eexists; reflexivity.
Qed.

Lemma load_all_in_order (paths : list string) (height width : nat) :
  forall images,
    load_all imread interp paths height width = inr images ->
    Forall2 (fun p raw => load_image imread interp p height width = inr raw)
            paths images.
Proof.
  induction paths as [|p rest IH]; cbn [load_all]; intros images.
  - intros [= <-]. constructor.
  - unfold bind.
    destruct (load_image imread interp p height width) as [e | img] eqn:Hp;
      [discriminate|].
    destruct (load_all imread interp rest height width) as [e | imgs];
      [discriminate|].
    intros [= <-]. constructor; [exact Hp | now apply IH].
Qed.

(** X2: the array [get_images] returns holds one image per matched path, in
    the order of [glob]: image number [k] is the scaled result of the loop
    body on path number [k]; no file is skipped or loaded twice. *)
Theorem get_images_one_image_per_path
        (image_dir : string) (height width : nat) (arr : list (Array3 Q)) :
  get_images glob imread interp image_dir height width = inr arr ->
  Forall2 (fun p img =>
             exists raw,
               load_image imread interp p height width = inr raw
               /\ img = scale_image raw)
          (glob image_dir) arr.
Proof.
  unfold get_images, bind.
  destruct (load_all imread interp (glob image_dir) height width)
    as [e | images] eqn:Hload; [discriminate|].
  intros [= <-]. apply load_all_in_order in Hload.
  unfold scale.
  induction Hload as [|p raw paths images Hp _ IH]; cbn; constructor.
  - exists raw. now split.
  - exact IH.
Qed.

(** X3: the load is fail-fast in the order of [glob]: when the files before
    a path load and the loop body raises on that path, [get_images] raises
    that very exception, whatever comes after. *)
Theorem get_images_first_failure
        (image_dir : string) (height width : nat)
        (loaded : list string) (path : string) (rest : list string)
        (e : LoadError) :
  glob image_dir = loaded ++ path :: rest ->
  Forall (fun q => exists img,
              load_image imread interp q height width = inr img) loaded ->
  load_image imread interp path height width = inl e ->
  get_images glob imread interp image_dir height width = inl e.
Proof.
  intros Hglob Hloaded Hpath. unfold get_images. rewrite Hglob.
  assert (Hall : load_all imread interp (loaded ++ path :: rest)
                          height width = inl e).
  { clear Hglob.
    induction Hloaded as [|q loaded [img Hq] _ IH]; cbn [app load_all].
    - rewrite Hpath. reflexivity.
    - rewrite Hq. cbn [bind]. rewrite IH. reflexivity. }
  now rewrite Hall.
Qed.

End LoaderReturns.

Lemma get_images_one_image_per_path_witness :
  exists arr,
    get_images Sample.glob_pair Sample.imread_pair Toy.interp_corner
               "d" 2 3 = inr arr
    /\ length arr = 2%nat.
Proof.
  eexists. split; [vm_compute; reflexivity|].
  symmetry.
  apply (Forall2_length
           (@get_images_one_image_per_path
              Sample.glob_pair Sample.imread_pair Toy.interp_corner
              "d" 2%nat 3%nat _ eq_refl)).
Defined.

Lemma get_images_first_failure_witness :
  get_images Sample.glob_three Sample.imread_three Toy.interp_corner
             "d" 64 64 = inl IndexError.
Proof.
  apply (@get_images_first_failure
           Sample.glob_three Sample.imread_three Toy.interp_corner
           "d" 64%nat 64%nat ["a.png"%string] "grey.png"%string
           ["empty.png"%string] IndexError).
  - reflexivity.
  - constructor; [|constructor]. eexists. vm_compute. reflexivity.
  - reflexivity.
Defined.

(** ** Compositing, pixel by pixel *)

Lemma Forall2_map_same {A B : Type} (R : A -> B -> Prop) (f : A -> B)
      (l : list A) :
  Forall (fun a => R a (f a)) l -> Forall2 R l (map f l).
Proof. induction 1; cbn; constructor; assumption. Qed.

(** What holds of every pixel and its composite holds of the whole image,
    position by position. *)
Lemma remove_transparency_pointwise
      (P : list Z -> Prop) (R : list Z -> list Z -> Prop)
      (background_color : Z) (source : Image) :
  (forall px, P px -> R px (composite_pixel background_color px)) ->
  Forall (Forall P) source ->
  Forall2 (Forall2 R) source (remove_transparency source background_color).
Proof.
  intros Hpx Hsource. unfold remove_transparency.
  apply Forall2_map_same.
  eapply Forall_impl; [|exact Hsource].
  intros row Hrow. apply Forall2_map_same.
  eapply Forall_impl; [|exact Hrow]. exact Hpx.
Qed.

(** A BGRA pixel of bytes. *)
Lemma byte_pixel_inv (px : list Z) :
  length px = 4%nat -> Forall is_u8 px ->
  exists b g r a,
    px = [b; g; r; a] /\ is_u8 b /\ is_u8 g /\ is_u8 r /\ is_u8 a.
Proof.
  intros Hlen Hall.
  destruct px as [|b [|g [|r [|a [|x px]]]]]; try discriminate.
  exists b, g, r, a.
  apply Forall_cons_iff in Hall. destruct Hall as [Hb Hall].
  apply Forall_cons_iff in Hall. destruct Hall as [Hg Hall].
  apply Forall_cons_iff in Hall. destruct Hall as [Hr Hall].
  apply Forall_cons_iff in Hall. destruct Hall as [Ha _].
  auto.
Qed.

(** Onto white, a channel never gets darker than one step below its source
    value and never leaves the byte range, whatever the alpha. *)
Lemma composite_white_range (v a : Z) :
  is_u8 v -> is_u8 a ->
  (v - 1 <= composite 255 v a <= 255)%Z.
Proof.
  intros Hv Ha.
  apply u8_values_complete in Hv. apply u8_values_complete in Ha.
  assert (Hall :
    forallb (fun x =>
      forallb (fun y =>
        let o := composite 255 x y in
        ((x - 1 <=? o) && (o <=? 255))%Z) u8_values) u8_values = true)
    by (vm_compute; reflexivity).
  rewrite forallb_forall in Hall. specialize (Hall _ Hv).
  rewrite forallb_forall in Hall. specialize (Hall _ Ha).
  cbv zeta in Hall. apply andb_true_iff in Hall.
  destruct Hall as [H1 H2]. apply Z.leb_le in H1, H2. lia.
Qed.

(** X5: where the source is fully opaque (alpha 255), [remove_transparency]
    returns each colour entry unchanged or exactly one lower, never higher,
    for every byte-valued background colour. *)
Theorem remove_transparency_opaque
        (source : Image) (background_color : Z) :
  is_u8 background_color ->
  Forall (Forall (fun px => length px = 4%nat /\ Forall is_u8 px
                            /\ nth 3 px 0%Z = 255%Z)) source ->
  Forall2 (Forall2 (fun px out =>
             Forall2 (fun v o => o = v \/ o = (v - 1)%Z)
                     (firstn 3 px) out))
          source (remove_transparency source background_color).
Proof.
  intros Hbg. apply remove_transparency_pointwise.
  intros px (Hlen & Hbytes & Halpha).
  destruct (byte_pixel_inv Hlen Hbytes)
    as (b & g & r & a & -> & Hb & Hg & Hr & Ha).
  cbn in Halpha. subst a. cbn.
  constructor; [now apply composite_opaque|].
  constructor; [now apply composite_opaque|].
  constructor; [now apply composite_opaque|].
  constructor.
Qed.

Lemma remove_transparency_opaque_witness :
  Forall2 (Forall2 (fun px out =>
             Forall2 (fun v o => o = v \/ o = (v - 1)%Z)
                     (firstn 3 px) out))
          [[[10; 33; 30; 255]%Z]]
          (remove_transparency [[[10; 33; 30; 255]%Z]] 7).
Proof.
  apply (@remove_transparency_opaque [[[10; 33; 30; 255]%Z]] 7).
  - unfold is_u8. lia.
  - repeat constructor; unfold is_u8; lia.
Defined.

(** X6: onto white, the background [get_images] asks for,
    [remove_transparency] returns for every byte-valued BGRA pixel three
    entries between one below the source entry and 255, and exactly
    (255, 255, 255) where the pixel is fully transparent. *)
Theorem remove_transparency_white (source : Image) :
  Forall (Forall (fun px => length px = 4%nat /\ Forall is_u8 px)) source ->
  Forall2 (Forall2 (fun px out =>
             Forall2 (fun v o => (v - 1 <= o <= 255)%Z) (firstn 3 px) out
             /\ (nth 3 px 0%Z = 0%Z -> out = [255; 255; 255]%Z)))
          source (remove_transparency source 255).
Proof.
  apply remove_transparency_pointwise.
  intros px (Hlen & Hbytes).
  destruct (byte_pixel_inv Hlen Hbytes)
    as (b & g & r & a & -> & Hb & Hg & Hr & Ha).
  cbn. split.
  - constructor; [now apply composite_white_range|].
    constructor; [now apply composite_white_range|].
    constructor; [now apply composite_white_range|].
    constructor.
  - intros ->. now rewrite !composite_transparent_white.
Qed.

Lemma remove_transparency_white_witness :
  Forall2 (Forall2 (fun px out =>
             Forall2 (fun v o => (v - 1 <= o <= 255)%Z) (firstn 3 px) out
             /\ (nth 3 px 0%Z = 0%Z -> out = [255; 255; 255]%Z)))
          [[[10; 20; 30; 128]%Z; [1; 2; 3; 0]%Z]]
          (remove_transparency [[[10; 20; 30; 128]%Z; [1; 2; 3; 0]%Z]] 255).
Proof.
  apply (@remove_transparency_white
           [[[10; 20; 30; 128]%Z; [1; 2; 3; 0]%Z]]).
  repeat constructor; unfold is_u8; lia.
Defined.

(** ** Label noise *)

Lemma assemble_labels_length (batch_size : nat) :
  length (assemble_labels batch_size) = (batch_size + batch_size)%nat.
Proof.
  unfold assemble_labels, ones, zeros.
  now rewrite length_app, !repeat_length.
Qed.

Lemma nth_repeat_in_range (q : Q) (n i : nat) :
  (i < n)%nat -> nth i (repeat q n) 0 = q.
Proof.
  intros Hi. apply (repeat_spec n q).
  apply nth_In. now rewrite repeat_length.
Qed.

(** The first half of a batch is marked 1, the second half 0. *)
Lemma assemble_labels_fake (batch_size i : nat) :
  (i < batch_size)%nat -> nth i (assemble_labels batch_size) 0 = 1.
Proof.
  intros Hi. unfold assemble_labels, ones.
  rewrite app_nth1 by now rewrite repeat_length.
  now apply nth_repeat_in_range.
Qed.

Lemma assemble_labels_real (batch_size j : nat) :
  (batch_size <= j < batch_size + batch_size)%nat ->
  nth j (assemble_labels batch_size) 0 = 0.
Proof.
  intros Hj. unfold assemble_labels, ones, zeros.
  rewrite app_nth2 by (rewrite repeat_length; lia).
  rewrite repeat_length. apply nth_repeat_in_range. lia.
Qed.

(** [labels += 0.05 * draws] read at one position: the binary64 sum of the
    label and of the binary64 product. *)
Lemma add_noise_nth (labels draws : list Q) (i : nat) :
  length draws = length labels -> (i < length labels)%nat ->
  nth i (add_noise labels draws) 0
  = F64.round (nth i labels 0 + noise_term (nth i draws 0)).
Proof.
  intros Hlen Hi. unfold add_noise.
  set (f := fun lu : Q * Q => F64.round (fst lu + noise_term (snd lu))).
  rewrite (nth_indep _ 0 (f (0, 0))).
  - rewrite (map_nth f), combine_nth by (symmetry; exact Hlen). reflexivity.
  - rewrite length_map, length_combine. lia.
Qed.

Lemma noise_vector_nth (batch_size i : nat) (draws : list Q) :
  noise_vector batch_size draws -> (i < batch_size + batch_size)%nat ->
  unit_draw (nth i draws 0).
Proof.
  intros [Hlen Hall] Hi.
  rewrite Forall_forall in Hall. apply Hall, nth_In. lia.
Qed.

Lemma sample_vector_nth (batch_size i : nat) (draws : list Q) :
  sample_vector batch_size draws -> (i < batch_size + batch_size)%nat ->
  random_sample (nth i draws 0).
Proof.
  intros [Hlen Hall] Hi.
  rewrite Forall_forall in Hall. apply Hall, nth_In. lia.
Qed.

(** A draw on the grid lies in [0, 1), and at or below 1 - 2^-53. *)
Lemma random_sample_range (u : Q) :
  random_sample u -> 0 <= u /\ u <= Toy.largest_draw.
Proof.
  intros (k & Hk & Hu).
  assert (H0 : 0 <= k # 2 ^ 53) by (unfold Qle; cbn; lia).
  assert (H1 : k # 2 ^ 53 <= Toy.largest_draw)
    by (unfold Qle, Toy.largest_draw; cbn; lia).
  rewrite Hu. split; assumption.
Qed.

Lemma random_sample_unit_draw (u : Q) : random_sample u -> unit_draw u.
Proof.
  intros Hu. apply random_sample_range in Hu. destruct Hu as [H0 H1].
  split; [exact H0|].
  assert (Toy.largest_draw < 1) by (vm_compute; reflexivity). lra.
Qed.

Lemma sample_vector_noise_vector (batch_size : nat) (draws : list Q) :
  sample_vector batch_size draws -> noise_vector batch_size draws.
Proof.
  intros [Hlen Hall]. split; [exact Hlen|].
  eapply Forall_impl; [|exact Hall]. exact random_sample_unit_draw.
Qed.

Lemma noisy_label_eq (batch_size i : nat) (draws : list Q) :
  noise_vector batch_size draws -> (i < batch_size + batch_size)%nat ->
  noisy_label batch_size i draws
  = F64.round (nth i (assemble_labels batch_size) 0
               + noise_term (nth i draws 0)).
Proof.
  intros [Hlen _] Hi. unfold noisy_label.
  apply add_noise_nth; rewrite assemble_labels_length; assumption.
Qed.

Lemma c05_range : 0 < c05 /\ 0.05 < c05 /\ c05 < 1.
Proof. repeat split; vm_compute; reflexivity. Qed.

(** The product grows with the draw. *)
Lemma noise_term_mono (u v : Q) : u <= v -> noise_term u <= noise_term v.
Proof.
  intros Huv. unfold noise_term. apply round_mono.
  destruct c05_range as [Hc _]. nra.
Qed.

(** For a draw from [0, 1) it lies between 0 and the literal 0.05, which is
    a little more than 1/20. *)
Lemma noise_term_range (u : Q) :
  unit_draw u -> 0 <= noise_term u /\ noise_term u <= c05.
Proof.
  intros [H0 H1].
  assert (E0 : noise_term 0 == 0) by (vm_compute; reflexivity).
  assert (E1 : noise_term 1 == c05) by (vm_compute; reflexivity).
  pose proof (@noise_term_mono 0 u H0).
  pose proof (@noise_term_mono u 1 ltac:(lra)).
  split; lra.
Qed.





(** The two ends of the grid. At the largest draw the sum rounds up to the
    binary64 number nearest to 1.05, which is above 1.05; at the smallest
    positive draw, and at 0, the label of a generated image stays 1. *)
Lemma noisy_label_extremes :
  noisy_label 1 0 [Toy.largest_draw; 0] == F64.round 1.05
  /\ 1.05 < F64.round 1.05
  /\ noisy_label 1 0 [Toy.smallest_draw; 0] == 1
  /\ noisy_label 1 0 [0; 0] == 1.
Proof. repeat split; vm_compute; reflexivity. Qed.

(** ** Expected labels *)

Lemma expect_lower_bound {A : Type} (f : A -> Q) (c : Q) (d : Dist A) :
  Forall (fun pa => 0 <= fst pa) d ->
  Forall (fun pa => c <= f (snd pa)) d ->
  c * total_weight d <= expect f d.
Proof.
  induction d as [|[p a] d IH]; cbn; intros Hp Hf.
  - lra.
  - inversion Hp as [|? ? Hp0 Hp']; inversion Hf as [|? ? Hf0 Hf']; subst.
    cbn in *. specialize (IH Hp' Hf').
    assert (p * c <= p * f a) by nra.
    change (c * (p + total_weight d) <= p * f a + expect f d). nra.
Qed.

Lemma expect_upper_bound {A : Type} (f : A -> Q) (c : Q) (d : Dist A) :
  Forall (fun pa => 0 <= fst pa) d ->
  Forall (fun pa => f (snd pa) <= c) d ->
  expect f d <= c * total_weight d.
Proof.
  induction d as [|[p a] d IH]; cbn; intros Hp Hf.
  - lra.
  - inversion Hp as [|? ? Hp0 Hp']; inversion Hf as [|? ? Hf0 Hf']; subst.
    cbn in *. specialize (IH Hp' Hf').
    assert (p * f a <= p * c) by nra.
    change (p * f a + expect f d <= c * (p + total_weight d)). nra.
Qed.

(** A label of a generated image stays at or above 1, a label of a real
    image at or below the literal 0.05, whatever the draws. *)
Lemma noisy_label_fake (batch_size i : nat) (draws : list Q) :
  noise_vector batch_size draws -> (i < batch_size)%nat ->
  1 <= noisy_label batch_size i draws.
Proof.
  intros Hvec Hi.
  assert (Hi2 : (i < batch_size + batch_size)%nat) by lia.
  rewrite (noisy_label_eq Hvec Hi2), (assemble_labels_fake Hi).
  pose proof (noise_term_range (noise_vector_nth Hvec Hi2)) as [H0 _].
  assert (E : F64.round 1 == 1) by (vm_compute; reflexivity).
  rewrite <- E at 1. apply round_mono. lra.
Qed.

Lemma noisy_label_real (batch_size j : nat) (draws : list Q) :
  noise_vector batch_size draws ->
  (batch_size <= j < batch_size + batch_size)%nat ->
  0 <= noisy_label batch_size j draws
  /\ noisy_label batch_size j draws <= c05.
Proof.
  intros Hvec Hj.
  assert (Hj2 : (j < batch_size + batch_size)%nat) by lia.
  rewrite (noisy_label_eq Hvec Hj2), (assemble_labels_real Hj).
  pose proof (noise_term_range (noise_vector_nth Hvec Hj2)) as [H0 H1].
  assert (E0 : F64.round 0 == 0) by (vm_compute; reflexivity).
  assert (E1 : F64.round (0 + c05) == c05) by (vm_compute; reflexivity).
  split.
  - rewrite <- E0 at 1. apply round_mono. lra.
  - rewrite <- E1. apply round_mono. lra.
Qed.

(** C9: under any distribution of the noise vector over draws from [0, 1),
    the expected label of a generated image (position [i] of the first half)
    is strictly greater than the expected label of a real image (position
    [j] of the second half). *)
Theorem expected_fake_label_above_real
        (batch_size i j : nat) (d : Dist (list Q)) :
  is_dist d ->
  Forall (fun pa => noise_vector batch_size (snd pa)) d ->
  (i < batch_size)%nat ->
  (batch_size <= j < batch_size + batch_size)%nat ->
  expect (noisy_label batch_size j) d < expect (noisy_label batch_size i) d.
Proof.
  intros [Hp Hw] Hvec Hi Hj.
  assert (Hfake : 1 * total_weight d <= expect (noisy_label batch_size i) d).
  { apply expect_lower_bound; [exact Hp|].
    eapply Forall_impl; [|exact Hvec].
    intros pa Hpa. now apply noisy_label_fake. }
  assert (Hreal :
    expect (noisy_label batch_size j) d <= c05 * total_weight d).
  { apply expect_upper_bound; [exact Hp|].
    eapply Forall_impl; [|exact Hvec].
    intros pa Hpa. now apply noisy_label_real. }
  destruct c05_range as (_ & _ & Hc).
  rewrite Hw in Hfake, Hreal. lra.
Qed.

Lemma expected_fake_label_above_real_witness :
  is_dist Toy.noise_dist
  /\ Forall (fun pa => noise_vector 1 (snd pa)) Toy.noise_dist
  /\ expect (noisy_label 1 1) Toy.noise_dist
     < expect (noisy_label 1 0) Toy.noise_dist.
Proof.
  assert (Hd : is_dist Toy.noise_dist).
  { split; [repeat constructor; discriminate | reflexivity]. }
  assert (Hv : Forall (fun pa => noise_vector 1 (snd pa)) Toy.noise_dist).
  { repeat constructor; cbn; unfold Qle, Qlt; cbn; lia. }
  split; [exact Hd|]. split; [exact Hv|].
  apply (@expected_fake_label_above_real 1 0 1 Toy.noise_dist Hd Hv); lia.
Defined.

(** ** Labels handed to the discriminator *)

(** X7: the labels of a discriminator batch, once the noise is added, are
    twice [batch_size] many; those of the generated images lie between 1
    and the binary64 number nearest to 1.05, which is above 1.05, and
    those of the real images lie in [0, 0.05). *)
Theorem noisy_labels_ranges (batch_size : nat) (draws : list Q) :
  sample_vector batch_size draws ->
  length (add_noise (assemble_labels batch_size) draws)
  = (batch_size + batch_size)%nat
  /\ (forall i, (i < batch_size)%nat ->
        1 <= noisy_label batch_size i draws
        /\ noisy_label batch_size i draws <= F64.round 1.05)
  /\ 1.05 < F64.round 1.05
  /\ (forall j, (batch_size <= j < batch_size + batch_size)%nat ->
        0 <= noisy_label batch_size j draws
        /\ noisy_label batch_size j draws < 0.05).
Proof.
  intros Hvec.
  pose proof (sample_vector_noise_vector Hvec) as Hnv.
  split; [|split; [|split]].
  - destruct Hvec as [Hlen _]. unfold add_noise.
    rewrite length_map, length_combine, assemble_labels_length, Hlen.
    apply Nat.min_id.
  - intros i Hi. split; [now apply noisy_label_fake|].
    assert (Hi2 : (i < batch_size + batch_size)%nat) by lia.
    rewrite (noisy_label_eq Hnv Hi2), (assemble_labels_fake Hi).
    pose proof (random_sample_range (sample_vector_nth Hvec Hi2)) as [_ H1].
    apply noise_term_mono in H1.
    assert (E : F64.round (1 + noise_term Toy.largest_draw)
                == F64.round 1.05) by (vm_compute; reflexivity).
    rewrite <- E. apply round_mono. lra.
  - vm_compute; reflexivity.
  - intros j Hj. split; [now apply noisy_label_real|].
    assert (Hj2 : (j < batch_size + batch_size)%nat) by lia.
    rewrite (noisy_label_eq Hnv Hj2), (assemble_labels_real Hj).
    pose proof (random_sample_range (sample_vector_nth Hvec Hj2)) as [_ H1].
    apply noise_term_mono in H1.
    assert (E : F64.round (0 + noise_term Toy.largest_draw) < 0.05)
      by (vm_compute; reflexivity).
    eapply Qle_lt_trans; [|exact E]. apply round_mono. lra.
Qed.

Lemma noisy_labels_ranges_witness :
  sample_vector 1 [1 # 2; 1 # 4]
  /\ length (add_noise (assemble_labels 1) [1 # 2; 1 # 4]) = 2%nat.
Proof.
  assert (Hvec : sample_vector 1 [1 # 2; 1 # 4]).
  { split; [reflexivity|].
    constructor; [|constructor; [|constructor]].
    - exists (2 ^ 52)%Z. split; [lia | vm_compute; reflexivity].
    - exists (2 ^ 51)%Z. split; [lia | vm_compute; reflexivity]. }
  split; [exact Hvec|].
  exact (proj1 (noisy_labels_ranges Hvec)).
Defined.

(** ** Generator *)

Section GeneratorFacts.

Local Open Scope R_scope.


Variable kernel : nat -> list R -> list R.





End GeneratorFacts.

(** Whatever [height] and [width] it is given, a generator that Keras can
    build emits 64 by 64 images: a 4 by 4 base doubled four times. *)
Lemma generator_output_shape (height width channels depth : nat)
      (dropout : Q) :
  depth <> 0%nat -> channels <> 0%nat ->
  layers_output_shape
    (layers (build_generator height width channels depth dropout))
    (input_shape (build_generator height width channels depth dropout))
  = Some [64; 64; channels]%nat.
Proof.
  intros Hd Hc.
  assert (E : forall n, n <> 0%nat -> (n =? 0)%nat = false)
    by (intros n Hn; now apply Nat.eqb_neq).
  unfold build_generator, latent_dim.
  cbn [layers input_shape layers_output_shape layer_output_shape
       removelast app fold_right].
  rewrite (E (4 * 4 * depth * 8)%nat) by lia.
  cbn [layers_output_shape layer_output_shape removelast app fold_right].
  replace (4 * 4 * depth * 8 * 1 =? 4 * (4 * (depth * 8 * 1)))%nat
    with true by (symmetry; apply Nat.eqb_eq; lia).
  rewrite (E (depth * 8)%nat), (E (depth * 4)%nat), (E (depth * 2)%nat),
    (E depth), (E channels) by lia.
  reflexivity.
Qed.

(** With no filters there is no model. *)
Lemma generator_needs_depth :
  predict_shape (build_generator 64 64 3 0 0.3) 1 = None
  /\ predict_shape (build_generator 64 64 0 64 0.3) 1 = None.
Proof. split; vm_compute; reflexivity. Qed.

(** The discriminator, by contrast, is built for the size it is given; at the
    notebook's defaults it maps a batch of 64 by 64 images to one score
    each. *)
Lemma discriminator_network_shape :
  input_shape (discriminator_network 32 48 3 64 0.6) = [32; 48; 3]%nat
  /\ predict_shape (discriminator_network 64 64 3 64 0.6) 128
     = Some [128; 1]%nat.
Proof. split; vm_compute; reflexivity. Qed.

(** C7, at a failing input: built with [height = 32] and [width = 32], the
    generator turns a batch of 5 latent vectors into a batch of shape
    (5, 64, 64, 3), not (5, 32, 32, 3), while the discriminator built with
    the same [height] and [width] takes 32 by 32 images. *)
Theorem build_generator_height_width_32 :
  predict_shape (build_generator 32 32 3 64 0.3) 5
  = Some [5; 64; 64; 3]%nat
  /\ input_shape (discriminator_network 32 32 3 64 0.6) = [32; 32; 3]%nat.
Proof. split; vm_compute; reflexivity. Qed.

(** ** File names *)

Lemma append_cancel_l (a x y : string) :
  (a ++ x)%string = (a ++ y)%string -> x = y.
Proof.
  induction a as [|c a IH]; cbn; [trivial|].
  intros [= H]. now apply IH.
Qed.

Lemma length_append (x y : string) :
  String.length (x ++ y) = (String.length x + String.length y)%nat.
Proof. induction x as [|c x IH]; cbn; [reflexivity | now rewrite IH]. Qed.

Lemma append_cancel_r (s x y : string) :
  (x ++ s)%string = (y ++ s)%string -> x = y.
Proof.
  revert y. induction x as [|c x IH]; intros [|c' y] H; cbn in H.
  - reflexivity.
  - apply (f_equal String.length) in H. cbn in H.
    rewrite length_append in H. lia.
  - apply (f_equal String.length) in H. cbn in H.
    rewrite length_append in H. lia.
  - injection H as -> H. f_equal. now apply IH.
Qed.

Lemma path_join_inj (save_dir x y : string) :
  path_join save_dir x = path_join save_dir y -> x = y.
Proof.
  unfold path_join.
  destruct ((String.length save_dir =? 0)%nat || ends_with_slash save_dir);
    intros H; apply append_cancel_l in H; [exact H|].
  now apply (append_cancel_l "/").
Qed.

Lemma to_uint_not_nil (n : nat) : Nat.to_uint n <> Decimal.Nil.
Proof.
  intros H. destruct n as [|n]; [discriminate|].
  pose proof (DecimalNat.Unsigned.of_to (S n)) as Hof.
  rewrite H in Hof. discriminate.
Qed.

(** [str] prints different steps differently. *)
Lemma str_inj (step step' : nat) : str step = str step' -> step = step'.
Proof.
  unfold str. intros H.
  apply (f_equal NilZero.uint_of_string) in H.
  rewrite !NilZero.usu in H by apply to_uint_not_nil.
  injection H as H. now apply DecimalNat.Unsigned.to_uint_inj.
Qed.

Lemma sample_name_inj (prefix : string) (step step' : nat) :
  (prefix ++ str step ++ ".png")%string
  = (prefix ++ str step' ++ ".png")%string ->
  step = step'.
Proof.
  intros H. apply append_cancel_l, append_cancel_r in H.
  now apply str_inj.
Qed.

(** The paths of two different steps have nothing in common, and the two
    paths of one step differ. *)
Lemma sample_paths_disjoint (save_dir : string) (step step' : nat)
      (path : string) :
  In path (sample_paths save_dir step) ->
  In path (sample_paths save_dir step') ->
  step = step'.
Proof.
  unfold sample_paths. cbn [In].
  intros [<- | [<- | []]] [H | [H | []]];
    apply path_join_inj in H;
    solve [ now apply sample_name_inj in H | cbn in H; discriminate H ].
Qed.

Lemma sample_paths_NoDup (save_dir : string) (step : nat) :
  NoDup (sample_paths save_dir step).
Proof.
  unfold sample_paths.
  constructor; [|constructor; [intros [] | constructor]].
  intros [H | []]. apply path_join_inj in H. cbn in H. discriminate H.
Qed.

Lemma sample_paths_not_models (save_dir : string) (step : nat)
      (path : string) :
  In path (sample_paths save_dir step) -> ~ In path (save_models save_dir).
Proof.
  unfold sample_paths, save_models. cbn [In].
  intros [<- | [<- | []]] [H | [H | [H | []]]];
    apply path_join_inj in H; cbn in H; discriminate H.
Qed.

Lemma save_models_NoDup (save_dir : string) : NoDup (save_models save_dir).
Proof.
  unfold save_models.
  repeat constructor; cbn [In];
    intros H; repeat destruct H as [H | H]; try contradiction;
    apply path_join_inj in H; discriminate H.
Qed.

Lemma flat_map_NoDup {A B : Type} (f : A -> list B) (l : list A) :
  NoDup l ->
  (forall a, NoDup (f a)) ->
  (forall a a' b, In b (f a) -> In b (f a') -> a = a') ->
  NoDup (flat_map f l).
Proof.
  intros Hl Hf Hdis.
  induction Hl as [|a l Hnotin _ IH]; cbn; [constructor|].
  apply NoDup_app; [apply Hf | exact IH |].
  intros b Hb Hin. apply in_flat_map in Hin.
  destruct Hin as (a' & Ha' & Hb').
  now rewrite (Hdis a a' b Hb Hb') in Hnotin.
Qed.

(** ** Trainer *)

Section TrainerFacts.

Variables GeneratorWeights DiscriminatorWeights : Type.
Variables Latents Images TrainSet Picture : Type.
Variable predict : GeneratorWeights -> Latents -> Images.
Variable take : TrainSet -> list nat -> Images.
Variable concatenate : Images -> Images -> Images.
Variable d_step :
  DiscriminatorWeights -> Images -> list Q -> DiscriminatorWeights.
Variable d_loss_of : DiscriminatorWeights -> Images -> list Q -> Loss.
Variable g_step :
  GeneratorWeights -> DiscriminatorWeights -> Latents -> list Q
  -> GeneratorWeights.
Variable g_step_on_discriminator :
  GeneratorWeights -> DiscriminatorWeights -> Latents -> list Q
  -> DiscriminatorWeights.
Variable a_loss_of :
  GeneratorWeights -> DiscriminatorWeights -> Latents -> list Q -> Loss.
Variable first_picture : Images -> Picture.
Variable train_size : TrainSet -> nat.
Variable faults : Faults GeneratorWeights DiscriminatorWeights Latents Images.

Variables discriminator gan : Compiled.
Variable x_train : TrainSet.
Variable batch_size : nat.
Variable draws : nat -> Draws Latents.

Local Abbreviation RunT := (Run GeneratorWeights DiscriminatorWeights Picture).
Local Abbreviation StoreT := (Store GeneratorWeights DiscriminatorWeights).

(** The loop body and the call of [train_gan] under the settings fixed
    above. *)
Local Abbreviation body save_dir save_intervals :=
  (iteration predict take concatenate d_step d_loss_of
             g_step g_step_on_discriminator a_loss_of first_picture
             train_size faults
             discriminator gan x_train save_dir batch_size save_intervals
             draws).

Local Abbreviation train generator save_dir save_intervals save_weights
      iterations s :=
  (train_gan predict take concatenate d_step d_loss_of
             g_step g_step_on_discriminator a_loss_of first_picture
             train_size faults
             discriminator generator gan x_train iterations save_dir
             batch_size save_intervals save_weights draws s).

(** The two updates and their composition, as the specification orders
    them. *)
Local Abbreviation update_discriminator :=
  (spec_discriminator_update predict take concatenate d_step d_loss_of
                             discriminator x_train batch_size draws).
Local Abbreviation update_generator :=
  (spec_generator_update g_step g_step_on_discriminator a_loss_of
                         gan batch_size draws).
Local Abbreviation one_iteration :=
  (spec_iteration predict take concatenate d_step d_loss_of
                  g_step g_step_on_discriminator a_loss_of
                  discriminator gan x_train batch_size draws).
Local Abbreviation training :=
  (spec_training predict take concatenate d_step d_loss_of
                 g_step g_step_on_discriminator a_loss_of
                 discriminator gan x_train batch_size draws).

Local Abbreviation discriminator_loss :=
  (spec_discriminator_loss predict take concatenate d_step d_loss_of
                           discriminator x_train batch_size draws).
Local Abbreviation adversarial_loss :=
  (spec_adversarial_loss predict take concatenate d_step d_loss_of
                         g_step g_step_on_discriminator a_loss_of
                         discriminator gan x_train batch_size draws).

(** The paths a checkpoint of a step writes. *)
Local Abbreviation written save_dir :=
  (fun step : nat =>
     match save_dir with
     | Some dir => sample_paths dir step
     | None => @nil string
     end).

Lemma training_order_app (l l' : list (Event Picture)) :
  training_order (l ++ l') = training_order l ++ training_order l'.
Proof. apply flat_map_app. Qed.

Lemma printed_steps_app (l l' : list (Event Picture)) :
  printed_steps (l ++ l') = printed_steps l ++ printed_steps l'.
Proof. apply flat_map_app. Qed.

Lemma saved_paths_app (l l' : list (Event Picture)) :
  saved_paths (l ++ l') = saved_paths l ++ saved_paths l'.
Proof. apply flat_map_app. Qed.

Lemma printed_discriminator_losses_app (l l' : list (Event Picture)) :
  printed_discriminator_losses (l ++ l')
  = printed_discriminator_losses l ++ printed_discriminator_losses l'.
Proof. apply flat_map_app. Qed.

Lemma printed_adversarial_losses_app (l l' : list (Event Picture)) :
  printed_adversarial_losses (l ++ l')
  = printed_adversarial_losses l ++ printed_adversarial_losses l'.
Proof. apply flat_map_app. Qed.

Lemma checkpoint_discriminator_losses_app (save_intervals : Z)
      (l l' : list (Event Picture)) :
  checkpoint_discriminator_losses save_intervals (l ++ l')
  = checkpoint_discriminator_losses save_intervals l
    ++ checkpoint_discriminator_losses save_intervals l'.
Proof. apply flat_map_app. Qed.

Lemma checkpoint_adversarial_losses_app (save_intervals : Z)
      (l l' : list (Event Picture)) :
  checkpoint_adversarial_losses save_intervals (l ++ l')
  = checkpoint_adversarial_losses save_intervals l
    ++ checkpoint_adversarial_losses save_intervals l'.
Proof. apply flat_map_app. Qed.

(** The loop body never writes a [trainable] attribute, however it ends. *)
Lemma iteration_flag (save_dir : option string) (save_intervals : Z)
      (step : nat) (r : RunT) :
  discriminator_trainable
    (store (run_of (body save_dir save_intervals step r)))
  = discriminator_trainable (store r).
Proof.
  unfold iteration, save_data, discriminator_train_on_batch,
    gan_train_on_batch.
  cbv beta iota zeta.
  repeat match goal with
         | |- context [match ?x with _ => _ end] => destruct x
         end; reflexivity.
Qed.

Lemma run_steps_flag (save_dir : option string) (save_intervals : Z)
      (steps : list nat) :
  forall r : RunT,
    discriminator_trainable
      (store (run_of (run_steps (body save_dir save_intervals) steps r)))
    = discriminator_trainable (store r).
Proof.
  induction steps as [|step rest IH]; intros r; cbn [run_steps];
    [reflexivity|].
  pose proof (iteration_flag save_dir save_intervals step r) as Hflag.
  destruct (body save_dir save_intervals step r) as [r' | e r'];
    cbn [run_of] in *.
  - now rewrite IH.
  - exact Hflag.
Qed.

(** How far one pass through the loop body gets. It ends before the
    discriminator update, with the weights as they were; or between the two
    updates, the discriminator trained and the generator not; or after the
    generator update, which then worked on the weights the discriminator
    update left. Only in the last case can it return. *)
Lemma iteration_progress (save_dir : option string) (save_intervals : Z)
      (step : nat) (r : RunT) :
  (store (run_of (body save_dir save_intervals step r)) = store r
   /\ training_order (log (run_of (body save_dir save_intervals step r)))
      = training_order (log r)
   /\ exists e r', body save_dir save_intervals step r = Raised e r')
  \/ (store (run_of (body save_dir save_intervals step r))
      = update_discriminator step (store r)
      /\ training_order (log (run_of (body save_dir save_intervals step r)))
         = training_order (log r) ++ [TrainedDiscriminator step]
      /\ exists e r', body save_dir save_intervals step r = Raised e r')
  \/ (store (run_of (body save_dir save_intervals step r))
      = one_iteration step (store r)
      /\ training_order (log (run_of (body save_dir save_intervals step r)))
         = training_order (log r)
           ++ [TrainedDiscriminator step; TrainedGenerator step]).
Proof.
  unfold iteration, save_data, spec_iteration, spec_generator_update,
    spec_discriminator_update, discriminator_train_on_batch,
    gan_train_on_batch, logged.
  cbv beta iota zeta. cbn [store log fst].
  destruct (predict_raises _ _ _) as [e|].
  { left. cbn [run_of]. repeat split. now exists e, r. }
  destruct (_ && _).
  { left. cbn [run_of store log]. split; [reflexivity|]. split.
    - rewrite training_order_app. cbn. now rewrite app_nil_r.
    - now eexists _, _. }
  destruct (concatenate_raises _ _ _) as [e|].
  { left. cbn [run_of store log]. split; [reflexivity|]. split.
    - rewrite training_order_app. cbn. now rewrite app_nil_r.
    - now eexists _, _. }
  destruct (discriminator_train_raises _ _ _ _) as [e|].
  { left. cbn [run_of store log]. split; [reflexivity|]. split.
    - rewrite training_order_app. cbn. now rewrite app_nil_r.
    - now eexists _, _. }
  destruct (gan_train_raises _ _ _ _ _) as [e|].
  { right. left. cbn [run_of store log]. split; [reflexivity|]. split.
    - rewrite !training_order_app. cbn. now rewrite app_nil_r.
    - now eexists _, _. }
  right. right.
  destruct (save_intervals =? 0)%Z;
    [|destruct (Z.of_nat step mod save_intervals =? 0)%Z;
      [destruct save_dir as [dir|];
       [destruct (save_raises _ _ _) as [e|];
        [|destruct (save_raises _ _ _) as [e|]]|]|]];
    cbn [run_of store log]; (split; [reflexivity|]);
    rewrite !training_order_app; cbn; rewrite ?app_nil_r, <- ?app_assoc;
    reflexivity.
Qed.

(** How far the loop gets: through the steps of [entered], each with the
    discriminator update first and the generator update on its result, and
    then possibly half way into the next step, the discriminator trained
    and the generator not. *)
Lemma run_steps_progress (save_dir : option string) (save_intervals : Z)
      (steps : list nat) :
  forall r : RunT,
  exists (entered rest : list nat) (half : bool),
    steps = entered ++ rest
    /\ training_order
         (log (run_of (run_steps (body save_dir save_intervals) steps r)))
       = training_order (log r) ++ alternating entered
         ++ (if half then [TrainedDiscriminator (hd 0%nat rest)] else [])
    /\ store (run_of (run_steps (body save_dir save_intervals) steps r))
       = (if half
          then update_discriminator (hd 0%nat rest)
                                    (training entered (store r))
          else training entered (store r))
    /\ (half = true -> rest <> [])
    /\ (forall r',
           run_steps (body save_dir save_intervals) steps r = Done r' ->
           rest = [] /\ half = false).
Proof.
  induction steps as [|step steps IH]; intros r; cbn [run_steps].
  - exists [], [], false. cbn. rewrite app_nil_r.
    repeat split; discriminate.
  - destruct (iteration_progress save_dir save_intervals step r)
      as [(Hs & Hl & e & r' & Hr) | [(Hs & Hl & e & r' & Hr) | (Hs & Hl)]].
    + rewrite Hr in *. cbn [run_of] in *.
      exists [], (step :: steps), false. cbn. rewrite app_nil_r.
      repeat split; try assumption; discriminate.
    + rewrite Hr in *. cbn [run_of] in *.
      exists [], (step :: steps), true. cbn.
      repeat split; try assumption; discriminate.
    + destruct (body save_dir save_intervals step r) as [r1 | e r1];
        cbn [run_of] in *.
      * destruct (IH r1)
          as (entered & rest & half & -> & Hl' & Hs' & Hhalf & Hdone).
        exists (step :: entered), rest, half.
        split; [reflexivity|]. split; [|split; [|split]].
        -- rewrite Hl', Hl. cbn. now rewrite <- !app_assoc.
        -- rewrite Hs', Hs. reflexivity.
        -- exact Hhalf.
        -- exact Hdone.
      * exists [step], steps, false.
        split; [reflexivity|]. split; [|split; [|split]].
        -- rewrite Hl. cbn. rewrite ?app_nil_r. reflexivity.
        -- rewrite Hs. reflexivity.
        -- discriminate.
        -- discriminate.
Qed.

(** C4: a run of [train_gan], however it ends, has gone through a first
    part [entered] of its steps, and possibly half way into the next one.
    In every step of [entered] the discriminator was updated first and the
    generator second, on the weights the discriminator update left; in a
    step the run got half way into, only the discriminator was updated.
    The generator is never updated first, and a run that returns has gone
    through all its steps. *)
Theorem train_gan_discriminator_before_generator
        (generator : Sequential) (iterations : Z)
        (save_dir : option string) (save_intervals : Z)
        (save_weights : bool) (s : StoreT) :
  exists (entered rest : list nat) (half : bool),
    seq 0 (Z.to_nat iterations) = entered ++ rest
    /\ training_order
         (log (run_of (train generator save_dir save_intervals save_weights
                             iterations s)))
       = alternating entered
         ++ (if half then [TrainedDiscriminator (hd 0%nat rest)] else [])
    /\ store (run_of (train generator save_dir save_intervals save_weights
                            iterations s))
       = (if half
          then update_discriminator (hd 0%nat rest) (training entered s)
          else training entered s)
    /\ (half = true -> rest <> [])
    /\ (forall r,
           train generator save_dir save_intervals save_weights
                 iterations s = Done r ->
           rest = [] /\ half = false).
Proof.
  unfold train_gan.
  destruct (run_steps_progress save_dir save_intervals
                               (seq 0 (Z.to_nat iterations))
                               {| store := s; log := [] |})
    as (entered & rest & half & Hsteps & Hl & Hs & Hhalf & Hdone).
  exists entered, rest, half.
  split; [exact Hsteps|]. split; [exact Hl|]. split; [exact Hs|].
  split; [exact Hhalf | exact Hdone].
Qed.

(** One pass through the loop body when no call raises, the training set
    is not empty and the interval is not zero: it returns, both networks
    are trained, and it prints and writes exactly when the step is a
    multiple of the interval; what it prints then are the losses the two
    training calls of this step reported. *)
Lemma iteration_quiet (save_dir : option string) (save_intervals : Z)
      (step : nat) (r : RunT) :
  quiet faults -> train_size x_train <> 0%nat -> save_intervals <> 0%Z ->
  let d_loss := discriminator_loss step (store r) in
  let a_loss := adversarial_loss step (store r) in
  exists r',
    body save_dir save_intervals step r = Done r'
    /\ store r' = one_iteration step (store r)
    /\ training_order (log r')
       = training_order (log r)
         ++ [TrainedDiscriminator step; TrainedGenerator step]
    /\ printed_steps (log r')
       = printed_steps (log r)
         ++ (if checkpoint_step save_intervals step then [step] else [])
    /\ saved_paths (log r')
       = saved_paths (log r)
         ++ (if checkpoint_step save_intervals step
             then written save_dir step else [])
    /\ printed_discriminator_losses (log r')
       = printed_discriminator_losses (log r)
         ++ (if checkpoint_step save_intervals step then [d_loss] else [])
    /\ checkpoint_discriminator_losses save_intervals (log r')
       = checkpoint_discriminator_losses save_intervals (log r)
         ++ (if checkpoint_step save_intervals step then [d_loss] else [])
    /\ printed_adversarial_losses (log r')
       = printed_adversarial_losses (log r)
         ++ (if checkpoint_step save_intervals step then [a_loss] else [])
    /\ checkpoint_adversarial_losses save_intervals (log r')
       = checkpoint_adversarial_losses save_intervals (log r)
         ++ (if checkpoint_step save_intervals step then [a_loss] else []).
Proof.
  intros ((Hp & Hc & Hd & Hg) & Hsave) Hsize Hnz.
  apply Nat.eqb_neq in Hsize. apply Z.eqb_neq in Hnz.
  unfold iteration, save_data, spec_iteration, spec_generator_update,
    spec_adversarial_loss, spec_discriminator_loss,
    spec_discriminator_update, discriminator_train_on_batch,
    gan_train_on_batch, logged.
  cbv beta iota zeta. cbn [store log fst snd generator_weights].
  rewrite Hp, Hsize, Hc, Hd, Hg, Hnz. cbn [andb].
  unfold checkpoint_step.
  destruct (Z.of_nat step mod save_intervals =? 0)%Z eqn:Hcp;
    [destruct save_dir as [dir|]; [rewrite !Hsave|]|];
    eexists; (split; [reflexivity|]); cbn [store log];
    (split; [reflexivity|]);
    rewrite ?training_order_app, ?printed_steps_app, ?saved_paths_app,
      ?printed_discriminator_losses_app, ?printed_adversarial_losses_app,
      ?checkpoint_discriminator_losses_app,
      ?checkpoint_adversarial_losses_app;
    cbn [training_order printed_steps saved_paths
         printed_discriminator_losses printed_adversarial_losses
         checkpoint_discriminator_losses checkpoint_adversarial_losses
         flat_map app sample_paths];
    unfold checkpoint_step; rewrite ?Hcp;
    cbn [app]; rewrite ?app_nil_r, <- ?app_assoc; cbn [app];
    repeat split; reflexivity.
Qed.

(** The whole loop under the same conditions. *)
Lemma run_steps_quiet (save_dir : option string) (save_intervals : Z)
      (steps : list nat) :
  quiet faults -> train_size x_train <> 0%nat -> save_intervals <> 0%Z ->
  forall r : RunT,
  exists r' d_losses a_losses,
    run_steps (body save_dir save_intervals) steps r = Done r'
    /\ store r' = training steps (store r)
    /\ training_order (log r')
       = training_order (log r) ++ alternating steps
    /\ printed_steps (log r')
       = printed_steps (log r)
         ++ filter (checkpoint_step save_intervals) steps
    /\ saved_paths (log r')
       = saved_paths (log r)
         ++ flat_map (written save_dir)
                     (filter (checkpoint_step save_intervals) steps)
    /\ printed_discriminator_losses (log r')
       = printed_discriminator_losses (log r) ++ d_losses
    /\ checkpoint_discriminator_losses save_intervals (log r')
       = checkpoint_discriminator_losses save_intervals (log r)
         ++ d_losses
    /\ printed_adversarial_losses (log r')
       = printed_adversarial_losses (log r) ++ a_losses
    /\ checkpoint_adversarial_losses save_intervals (log r')
       = checkpoint_adversarial_losses save_intervals (log r)
         ++ a_losses.
Proof.
  intros Hq Hsize Hnz.
  induction steps as [|step steps IH]; intros r; cbn [run_steps filter].
  - exists r, [], []. cbn. rewrite !app_nil_r. repeat split; reflexivity.
  - destruct (iteration_quiet save_dir step r Hq Hsize Hnz)
      as (r1 & -> & Hs & Ho & Hps & Hsp & Hpd & Hcd & Hpa & Hca).
    set (dl := discriminator_loss step (store r)) in *.
    set (al := adversarial_loss step (store r)) in *.
    destruct (IH r1)
      as (r' & dls & als & -> & Hs' & Ho' & Hps' & Hsp' & Hpd' & Hcd'
          & Hpa' & Hca').
    exists r',
      ((if checkpoint_step save_intervals step then [dl] else []) ++ dls),
      ((if checkpoint_step save_intervals step then [al] else []) ++ als).
    split; [reflexivity|].
    rewrite Hs', Ho', Hps', Hsp', Hpd', Hcd', Hpa', Hca',
      Hs, Ho, Hps, Hsp, Hpd, Hcd, Hpa, Hca.
    destruct (checkpoint_step save_intervals step); cbn;
      rewrite <- ?app_assoc; cbn; rewrite ?app_nil_r;
      repeat split; reflexivity.
Qed.

(** C6, amended: [train_gan] does not look at the losses. When no call
    raises, the training set is not empty and [save_intervals] is not zero,
    it returns after all the steps of [range(iterations)], having trained
    the discriminator and then the generator in each, whatever the losses
    were, finite or not; and what it prints are the two losses of the steps
    that are multiples of [save_intervals], nothing else. *)
Theorem train_gan_trains_every_step
        (generator : Sequential) (iterations : Z)
        (save_dir : option string) (save_intervals : Z)
        (save_weights : bool) (s : StoreT) :
  quiet faults -> train_size x_train <> 0%nat -> save_intervals <> 0%Z ->
  exists r,
    train generator save_dir save_intervals save_weights iterations s
    = Done r
    /\ store r = training (seq 0 (Z.to_nat iterations)) s
    /\ training_order (log r) = alternating (seq 0 (Z.to_nat iterations))
    /\ printed_discriminator_losses (log r)
       = checkpoint_discriminator_losses save_intervals (log r)
    /\ printed_adversarial_losses (log r)
       = checkpoint_adversarial_losses save_intervals (log r).
Proof.
  intros Hq Hsize Hnz. unfold train_gan.
  destruct (run_steps_quiet save_dir (seq 0 (Z.to_nat iterations))
                            Hq Hsize Hnz {| store := s; log := [] |})
    as (r & dls & als & Hrun & Hs & Ho & _ & _ & Hpd & Hcd & Hpa & Hca).
  exists r. split; [exact Hrun|]. split; [exact Hs|]. split; [exact Ho|].
  rewrite Hpd, Hcd, Hpa, Hca. split; reflexivity.
Qed.

(** C10: two calls of [train_gan] that differ in [save_weights] alone end
    in the same outcome: the same weights and attributes in the store, the
    same prints and the same files, in the same order. *)
Theorem train_gan_save_weights_unused
        (generator : Sequential) (iterations : Z)
        (save_dir : option string) (save_intervals : Z)
        (save_weights save_weights' : bool) (s : StoreT) :
  train generator save_dir save_intervals save_weights iterations s
  = train generator save_dir save_intervals save_weights' iterations s.
Proof. unfold train_gan. reflexivity. Qed.

(** X10: when no call raises, the training set is not empty and the
    interval is not zero, a run of [train_gan] prints the step number
    exactly at the steps of [range(iterations)] that are multiples of
    [save_intervals], step 0 first, and writes the two sample files of
    exactly those steps when [save_dir] is given, nothing when it is
    [None]. *)
Theorem train_gan_checkpoint_schedule
        (generator : Sequential)
        (save_dir : option string) (save_intervals : Z)
        (save_weights : bool) (iterations : Z) (s : StoreT) :
  quiet faults -> train_size x_train <> 0%nat -> save_intervals <> 0%Z ->
  exists r,
    train generator save_dir save_intervals save_weights iterations s
    = Done r
    /\ printed_steps (log r)
       = filter (checkpoint_step save_intervals)
                (seq 0 (Z.to_nat iterations))
    /\ saved_paths (log r)
       = match save_dir with
         | Some dir =>
             flat_map (sample_paths dir)
                      (filter (checkpoint_step save_intervals)
                              (seq 0 (Z.to_nat iterations)))
         | None => []
         end.
Proof.
  intros Hq Hsize Hnz. unfold train_gan.
  destruct (run_steps_quiet save_dir (seq 0 (Z.to_nat iterations))
                            Hq Hsize Hnz {| store := s; log := [] |})
    as (r & dls & als & Hrun & _ & _ & Hp & Hs & _).
  exists r. split; [exact Hrun|]. split; [exact Hp|].
  rewrite Hs. cbn [log saved_paths flat_map app].
  destruct save_dir; [reflexivity|].
  generalize (filter (checkpoint_step save_intervals)
                     (seq 0 (Z.to_nat iterations))).
  intros l. induction l as [|k l IH]; [reflexivity | exact IH].
Qed.

(** What one pass through the loop body writes is a first part of what a
    checkpoint of that step writes, and all of it when the pass returns. *)
Lemma iteration_saved (save_dir : option string) (save_intervals : Z)
      (step : nat) (r : RunT) :
  exists p q,
    (if checkpoint_step save_intervals step
     then written save_dir step else []) = p ++ q
    /\ saved_paths (log (run_of (body save_dir save_intervals step r)))
       = saved_paths (log r) ++ p
    /\ (forall r', body save_dir save_intervals step r = Done r' -> q = []).
Proof.
  unfold iteration, save_data, discriminator_train_on_batch,
    gan_train_on_batch, logged, checkpoint_step.
  cbv beta iota zeta. cbn [store log fst].
  destruct (predict_raises _ _ _) as [e|];
    [|destruct (_ && _);
      [|destruct (concatenate_raises _ _ _) as [e|];
        [|destruct (discriminator_train_raises _ _ _ _) as [e|];
          [|destruct (gan_train_raises _ _ _ _ _) as [e|];
            [|destruct (save_intervals =? 0)%Z]]]]];
    try (exists [];
         exists (if (Z.of_nat step mod save_intervals =? 0)%Z
                 then written save_dir step else []);
         cbn [run_of log]; rewrite ?saved_paths_app; cbn;
         rewrite ?app_nil_r; repeat split; discriminate).
  destruct (Z.of_nat step mod save_intervals =? 0)%Z.
  2:{ exists [], []. cbn [run_of log]. rewrite ?saved_paths_app. cbn.
      rewrite ?app_nil_r. repeat split. }
  destruct save_dir as [dir|].
  2:{ exists [], []. cbn [run_of log]. rewrite ?saved_paths_app. cbn.
      rewrite ?app_nil_r. repeat split. }
  unfold sample_paths.
  destruct (save_raises _ _ _) as [e|].
  { eexists [], _. cbn [run_of log]. rewrite ?saved_paths_app. cbn.
    rewrite ?app_nil_r. repeat split. discriminate. }
  destruct (save_raises _ _ _) as [e|].
  { eexists [_], [_]. cbn [run_of log]. rewrite ?saved_paths_app. cbn.
    rewrite ?app_nil_r. repeat split. discriminate. }
  eexists [_; _], []. cbn [run_of log]. rewrite ?saved_paths_app. cbn.
  rewrite ?app_nil_r, <- ?app_assoc. repeat split.
Qed.

Lemma run_steps_saved (save_dir : option string) (save_intervals : Z)
      (steps : list nat) :
  forall r : RunT,
  exists p q,
    flat_map (written save_dir)
             (filter (checkpoint_step save_intervals) steps) = p ++ q
    /\ saved_paths
         (log (run_of (run_steps (body save_dir save_intervals) steps r)))
       = saved_paths (log r) ++ p.
Proof.
  induction steps as [|step steps IH]; intros r; cbn [run_steps filter].
  - exists [], []. cbn. now rewrite app_nil_r.
  - destruct (iteration_saved save_dir save_intervals step r)
      as (p & q & Hpq & Hsaved & Hdone).
    assert (Hall :
      flat_map (written save_dir)
               (if checkpoint_step save_intervals step
                then step :: filter (checkpoint_step save_intervals) steps
                else filter (checkpoint_step save_intervals) steps)
      = (p ++ q)
        ++ flat_map (written save_dir)
                    (filter (checkpoint_step save_intervals) steps)).
    { rewrite <- Hpq.
      destruct (checkpoint_step save_intervals step); reflexivity. }
    rewrite Hall.
    destruct (body save_dir save_intervals step r) as [r1 | e r1];
      cbn [run_of] in *.
    + rewrite (Hdone r1 eq_refl), app_nil_r in *.
      destruct (IH r1) as (p' & q' & Hpq' & Hsaved').
      exists (p ++ p'), q'. split.
      * rewrite Hpq'. now rewrite app_assoc.
      * rewrite Hsaved', Hsaved. now rewrite app_assoc.
    + exists p, (q ++ flat_map (written save_dir)
                        (filter (checkpoint_step save_intervals) steps)).
      split; [now rewrite app_assoc | exact Hsaved].
Qed.

(** X11: a run of [train_gan] with a [save_dir] never writes a path twice,
    and none of its sample files has the path of one of the three model
    files the notebook saves afterwards into the same directory. *)
Theorem train_gan_never_overwrites
        (generator : Sequential)
        (dir : string) (save_intervals : Z)
        (save_weights : bool) (iterations : Z) (s : StoreT) :
  NoDup (saved_paths
           (log (run_of (train generator (Some dir) save_intervals
                               save_weights iterations s)))
         ++ save_models dir).
Proof.
  unfold train_gan.
  destruct (run_steps_saved (Some dir) save_intervals
                            (seq 0 (Z.to_nat iterations))
                            {| store := s; log := [] |})
    as (p & q & Hpq & ->).
  cbn [log saved_paths flat_map app].
  assert (Hfull : NoDup (p ++ q)).
  { rewrite <- Hpq. apply flat_map_NoDup.
    - apply NoDup_filter, seq_NoDup.
    - apply sample_paths_NoDup.
    - intros a a' b. apply sample_paths_disjoint. }
  apply NoDup_app.
  - now apply NoDup_app_remove_r in Hfull.
  - apply save_models_NoDup.
  - intros path Hin.
    assert (Hin' : In path (p ++ q)) by (apply in_or_app; now left).
    rewrite <- Hpq in Hin'. apply in_flat_map in Hin'.
    destruct Hin' as (step & _ & Hstep).
    eapply sample_paths_not_models; exact Hstep.
Qed.

(** X12: with [save_intervals = 0], at least one iteration asked for, a
    training set that is not empty and no call raising, [train_gan] ends
    in a ZeroDivisionError during step 0, and by then the discriminator
    and the generator have both been trained once; nothing was printed or
    written. *)
Theorem train_gan_zero_interval
        (generator : Sequential)
        (save_dir : option string) (save_weights : bool) (iterations : Z)
        (s : StoreT) :
  (0 < iterations)%Z ->
  train_size x_train <> 0%nat ->
  training_calls_return faults ->
  exists r,
    train generator save_dir 0 save_weights iterations s
    = Raised ZeroDivisionError r
    /\ store r = one_iteration 0 s
    /\ log r = [ Predicted Picture 0;
                 DiscriminatorTrained Picture 0 (discriminator_loss 0%nat s);
                 GanTrained Picture 0 (adversarial_loss 0%nat s) ].
Proof.
  intros Hpos Hsize (Hp & Hc & Hd & Hg). unfold train_gan.
  apply Nat.eqb_neq in Hsize.
  destruct (Z.to_nat iterations) as [|n] eqn:Hn; [lia|].
  cbn [seq run_steps].
  unfold iteration, discriminator_train_on_batch, gan_train_on_batch,
    logged.
  cbv beta iota zeta. cbn [store log fst snd].
  rewrite Hp, Hsize, Hc, Hd, Hg. cbn [andb Z.eqb].
  eexists. split; [reflexivity|]. split; reflexivity.
Qed.

(** X13: for [iterations <= 0] the range is empty: [train_gan] returns at
    once, the store untouched and nothing logged, even when
    [save_intervals] is 0. *)
Theorem train_gan_no_iterations
        (generator : Sequential)
        (save_dir : option string) (save_intervals : Z)
        (save_weights : bool) (iterations : Z) (s : StoreT) :
  (iterations <= 0)%Z ->
  train generator save_dir save_intervals save_weights iterations s
  = Done {| store := s; log := [] |}.
Proof.
  intros Hle. unfold train_gan.
  replace (Z.to_nat iterations) with 0%nat by lia. reflexivity.
Qed.

(** X16: on an empty training set, with a batch size that is not zero and
    at least one iteration asked for, [train_gan] ends in the ValueError
    of [np.random.randint] during step 0, as soon as the generator has
    predicted (when that call returns): no network is trained, nothing is
    printed or written. *)
Theorem train_gan_empty_training_set
        (generator : Sequential)
        (save_dir : option string) (save_intervals : Z)
        (save_weights : bool) (iterations : Z) (s : StoreT) :
  (0 < iterations)%Z ->
  train_size x_train = 0%nat ->
  batch_size <> 0%nat ->
  predict_raises faults (generator_weights s)
                 (latents_for_discriminator (draws 0%nat)) = None ->
  train generator save_dir save_intervals save_weights iterations s
  = Raised ValueError {| store := s; log := [Predicted Picture 0] |}.
Proof.
  intros Hpos Hsize Hbatch Hp. unfold train_gan.
  apply Nat.eqb_neq in Hbatch.
  destruct (Z.to_nat iterations) as [|n] eqn:Hn; [lia|].
  cbn [seq run_steps].
  unfold iteration, logged.
  cbv beta iota zeta. cbn [store log].
  rewrite Hp, Hsize, Hbatch. reflexivity.
Qed.

(** X17: when the first sample of step 0 cannot be written, a run with a
    [save_dir] and at least one iteration ends in that exception during
    step 0: both networks have been trained once and the losses of step 0
    printed, no file is written and no further step is made. *)
Theorem train_gan_save_failure
        (generator : Sequential)
        (dir : string) (save_intervals : Z)
        (save_weights : bool) (iterations : Z) (s : StoreT) (e : Exn) :
  (0 < iterations)%Z ->
  train_size x_train <> 0%nat ->
  save_intervals <> 0%Z ->
  training_calls_return faults ->
  (forall batch,
      save_raises faults
                  (path_join dir ("generated_image" ++ str 0 ++ ".png"))
                  batch = Some e) ->
  exists r,
    train generator (Some dir) save_intervals save_weights iterations s
    = Raised e r
    /\ store r = one_iteration 0 s
    /\ log r = [ Predicted Picture 0;
                 DiscriminatorTrained Picture 0 (discriminator_loss 0%nat s);
                 GanTrained Picture 0 (adversarial_loss 0%nat s);
                 PrintedStep Picture 0;
                 PrintedDiscriminatorLoss Picture
                                          (discriminator_loss 0%nat s);
                 PrintedAdversarialLoss Picture (adversarial_loss 0%nat s) ].
Proof.
  intros Hpos Hsize Hnz (Hp & Hc & Hd & Hg) Hsave. unfold train_gan.
  apply Nat.eqb_neq in Hsize. apply Z.eqb_neq in Hnz.
  destruct (Z.to_nat iterations) as [|n] eqn:Hn; [lia|].
  cbn [seq run_steps].
  unfold iteration, save_data, discriminator_train_on_batch,
    gan_train_on_batch, logged.
  cbv beta iota zeta. cbn [store log fst snd].
  rewrite Hp, Hsize, Hc, Hd, Hg, Hnz. cbn [andb].
  change (Z.of_nat 0) with 0%Z. rewrite Z.mod_0_l by (apply Z.eqb_neq; exact Hnz).
  cbn [Z.eqb]. rewrite Hsave.
  eexists. split; [reflexivity|]. split; reflexivity.
Qed.

End TrainerFacts.

(** C6, as stated, fails: on a framework whose losses are NaN from the
    first step on, three iterations are asked for and three are run; the
    second and third train both networks although every loss before them
    was NaN, and only the checkpoint of step 0 prints anything. *)
Lemma train_gan_continues_after_nan_cex :
  exists r,
    Toy.train None 100 false 3 = Done r
    /\ log r
       = [ Predicted unit 0; DiscriminatorTrained unit 0 NaN;
           GanTrained unit 0 NaN;
           PrintedStep unit 0; PrintedDiscriminatorLoss unit NaN;
           PrintedAdversarialLoss unit NaN;
           Predicted unit 1; DiscriminatorTrained unit 1 NaN;
           GanTrained unit 1 NaN;
           Predicted unit 2; DiscriminatorTrained unit 2 NaN;
           GanTrained unit 2 NaN ]%nat
    /\ is_finite NaN = false.
Proof. eexists. repeat split; vm_compute; reflexivity. Qed.

Lemma train_gan_trains_every_step_witness :
  quiet Toy.no_faults
  /\ Toy.train_size tt <> 0%nat
  /\ (100 <> 0)%Z
  /\ exists r,
       Toy.train None 100 false 3 = Done r
       /\ training_order (log r) = alternating [0; 1; 2]%nat.
Proof.
  assert (Hq : quiet Toy.no_faults)
    by (unfold quiet, training_calls_return; repeat split; reflexivity).
  assert (Hsize : Toy.train_size tt <> 0%nat) by discriminate.
  assert (Hnz : (100 <> 0)%Z) by discriminate.
  split; [exact Hq|]. split; [exact Hsize|]. split; [exact Hnz|].
  destruct (@train_gan_trains_every_step
              nat nat unit unit unit unit
              Toy.predict Toy.take Toy.concatenate Toy.d_step Toy.d_loss_of
              Toy.g_step Toy.g_step_on_discriminator Toy.a_loss_of
              Toy.first_picture Toy.train_size Toy.no_faults
              Toy.discriminator Toy.gan tt 1%nat Toy.draws
              Toy.generator 3%Z None 100%Z false Toy.initial_store
              Hq Hsize Hnz)
    as (r & Hrun & _ & Horder & _).
  exists r. split; [exact Hrun | exact Horder].
Defined.

(** C1, as stated, fails: once the first iteration is over, that is right
    before the discriminator update of the second one, the [trainable]
    attribute of the discriminator is still [False], as [build_gan] left
    it. *)
Lemma discriminator_trainable_not_restored_cex :
  exists r,
    Toy.train None 100 false 1 = Done r
    /\ discriminator_trainable (store r) = false.
Proof. eexists. split; vm_compute; reflexivity. Qed.

(** C1, amended: for the models as the notebook builds them, a generator
    update leaves the discriminator's weights alone and moves the
    generator's; a discriminator update moves the discriminator's weights
    and leaves the generator's alone, whatever the [trainable] attribute
    says, because the discriminator was compiled before [build_gan] cleared
    it; and the attribute is [False] from [build_gan] on, through every run
    of [train_gan]. *)
Theorem discriminator_frozen_in_gan_only
        (GeneratorWeights DiscriminatorWeights : Type)
        (Latents Images TrainSet Picture : Type)
        (predict : GeneratorWeights -> Latents -> Images)
        (take : TrainSet -> list nat -> Images)
        (concatenate : Images -> Images -> Images)
        (d_step :
           DiscriminatorWeights -> Images -> list Q -> DiscriminatorWeights)
        (d_loss_of : DiscriminatorWeights -> Images -> list Q -> Loss)
        (g_step :
           GeneratorWeights -> DiscriminatorWeights -> Latents -> list Q
           -> GeneratorWeights)
        (g_step_on_discriminator :
           GeneratorWeights -> DiscriminatorWeights -> Latents -> list Q
           -> DiscriminatorWeights)
        (a_loss_of :
           GeneratorWeights -> DiscriminatorWeights -> Latents -> list Q
           -> Loss)
        (first_picture : Images -> Picture)
        (train_size : TrainSet -> nat)
        (faults : Faults GeneratorWeights DiscriminatorWeights Latents Images)
        (lr_d lr_g : Q)
        (initial_d : DiscriminatorWeights) (initial_g : GeneratorWeights) :
  let models := notebook_models lr_d lr_g initial_d initial_g in
  let s0 := fst (fst (fst models)) in
  let discriminator := snd (fst (fst models)) in
  let generator := snd (fst models) in
  let gan := snd models in
  (forall (st : Store GeneratorWeights DiscriminatorWeights)
          (latents : Latents) (targets : list Q),
      let st' := fst (gan_train_on_batch g_step g_step_on_discriminator
                                         a_loss_of gan st latents targets) in
      discriminator_weights st' = discriminator_weights st
      /\ generator_weights st'
         = g_step (generator_weights st) (discriminator_weights st)
                  latents targets)
  /\ (forall (st : Store GeneratorWeights DiscriminatorWeights)
             (images : Images) (labels : list Q),
         let st' := fst (discriminator_train_on_batch
                           d_step d_loss_of discriminator st images labels) in
         discriminator_weights st'
         = d_step (discriminator_weights st) images labels
         /\ generator_weights st' = generator_weights st)
  /\ discriminator_trainable s0 = false
  /\ (forall (x_train : TrainSet) iterations save_dir batch_size
              save_intervals save_weights (draws : nat -> Draws Latents),
         discriminator_trainable
           (store (run_of (train_gan predict take concatenate d_step
                                     d_loss_of g_step
                                     g_step_on_discriminator a_loss_of
                                     first_picture train_size faults
                                     discriminator generator
                                     gan x_train iterations save_dir
                                     batch_size save_intervals save_weights
                                     draws s0)))
         = false).
Proof.
  cbn. repeat split.
  intros x_train iterations save_dir batch_size save_intervals save_weights
         draws.
  unfold train_gan. now rewrite run_steps_flag.
Qed.

Lemma train_gan_checkpoint_schedule_witness :
  quiet Toy.no_faults
  /\ Toy.train_size tt <> 0%nat
  /\ (2 <> 0)%Z
  /\ exists r,
       Toy.train (Some "out"%string) 2 false 3 = Done r
       /\ printed_steps (log r) = [0; 2]%nat
       /\ saved_paths (log r)
          = [ "out/generated_image0.png"; "out/real_image0.png";
              "out/generated_image2.png"; "out/real_image2.png" ]%string.
Proof.
  assert (Hq : quiet Toy.no_faults)
    by (unfold quiet, training_calls_return; repeat split; reflexivity).
  assert (Hsize : Toy.train_size tt <> 0%nat) by discriminate.
  assert (Hnz : (2 <> 0)%Z) by discriminate.
  split; [exact Hq|]. split; [exact Hsize|]. split; [exact Hnz|].
  exact (@train_gan_checkpoint_schedule
           nat nat unit unit unit unit
           Toy.predict Toy.take Toy.concatenate Toy.d_step Toy.d_loss_of
           Toy.g_step Toy.g_step_on_discriminator Toy.a_loss_of
           Toy.first_picture Toy.train_size Toy.no_faults
           Toy.discriminator Toy.gan tt 1%nat Toy.draws
           Toy.generator (Some "out"%string) 2%Z false 3%Z
           Toy.initial_store Hq Hsize Hnz).
Defined.

Lemma train_gan_zero_interval_witness :
  (0 < 3)%Z
  /\ Toy.train_size tt <> 0%nat
  /\ training_calls_return Toy.no_faults
  /\ exists r,
       Toy.train (Some "out"%string) 0 true 3 = Raised ZeroDivisionError r
       /\ generator_weights (store r) = 2%nat
       /\ discriminator_weights (store r) = 1%nat
       /\ log r = [ Predicted unit 0;
                    DiscriminatorTrained unit 0 NaN;
                    GanTrained unit 0 NaN ].
Proof.
  assert (Hpos : (0 < 3)%Z) by reflexivity.
  assert (Hsize : Toy.train_size tt <> 0%nat) by discriminate.
  assert (Hq : training_calls_return Toy.no_faults)
    by (unfold training_calls_return; repeat split; reflexivity).
  split; [exact Hpos|]. split; [exact Hsize|]. split; [exact Hq|].
  destruct (@train_gan_zero_interval
              nat nat unit unit unit unit
              Toy.predict Toy.take Toy.concatenate Toy.d_step Toy.d_loss_of
              Toy.g_step Toy.g_step_on_discriminator Toy.a_loss_of
              Toy.first_picture Toy.train_size Toy.no_faults
              Toy.discriminator Toy.gan tt 1%nat Toy.draws
              Toy.generator (Some "out"%string) true 3%Z
              Toy.initial_store Hpos Hsize Hq)
    as (r & Hrun & Hstore & Hlog).
  exists r. split; [exact Hrun|].
  rewrite Hstore, Hlog. repeat split; vm_compute; reflexivity.
Defined.

Lemma train_gan_no_iterations_witness :
  (-4 <= 0)%Z
  /\ Toy.train None 0 false (-4)
     = Done {| store := Toy.initial_store; log := [] |}.
Proof.
  split; [discriminate|].
  apply (@train_gan_no_iterations
           nat nat unit unit unit unit
           Toy.predict Toy.take Toy.concatenate Toy.d_step Toy.d_loss_of
           Toy.g_step Toy.g_step_on_discriminator Toy.a_loss_of
           Toy.first_picture Toy.train_size Toy.no_faults
           Toy.discriminator Toy.gan tt 1%nat Toy.draws
           Toy.generator None 0%Z false (-4)%Z Toy.initial_store).
  discriminate.
Defined.

Lemma train_gan_empty_training_set_witness :
  (0 < 2)%Z
  /\ Toy.empty_train_size tt = 0%nat
  /\ 1%nat <> 0%nat
  /\ Toy.train_with Toy.empty_train_size Toy.no_faults None 100 true 2
     = Raised ValueError
              {| store := Toy.initial_store; log := [Predicted unit 0] |}.
Proof.
  assert (Hpos : (0 < 2)%Z) by reflexivity.
  assert (Hsize : Toy.empty_train_size tt = 0%nat) by reflexivity.
  assert (Hbatch : 1%nat <> 0%nat) by discriminate.
  split; [exact Hpos|]. split; [exact Hsize|]. split; [exact Hbatch|].
  exact (@train_gan_empty_training_set
           nat nat unit unit unit unit
           Toy.predict Toy.take Toy.concatenate Toy.d_step Toy.d_loss_of
           Toy.g_step Toy.g_step_on_discriminator Toy.a_loss_of
           Toy.first_picture Toy.empty_train_size Toy.no_faults
           Toy.discriminator Toy.gan tt 1%nat Toy.draws
           Toy.generator None 100%Z true 2%Z Toy.initial_store
           Hpos Hsize Hbatch eq_refl).
Defined.

Lemma train_gan_save_failure_witness :
  (0 < 2)%Z
  /\ Toy.train_size tt <> 0%nat
  /\ (100 <> 0)%Z
  /\ training_calls_return Toy.missing_dir
  /\ exists r,
       Toy.train_with Toy.train_size Toy.missing_dir
                      (Some "out"%string) 100 true 2
       = Raised OSError r
       /\ generator_weights (store r) = 2%nat
       /\ discriminator_weights (store r) = 1%nat
       /\ saved_paths (log r) = [].
Proof.
  assert (Hpos : (0 < 2)%Z) by reflexivity.
  assert (Hsize : Toy.train_size tt <> 0%nat) by discriminate.
  assert (Hnz : (100 <> 0)%Z) by discriminate.
  assert (Hq : training_calls_return Toy.missing_dir)
    by (unfold training_calls_return; repeat split; reflexivity).
  split; [exact Hpos|]. split; [exact Hsize|]. split; [exact Hnz|].
  split; [exact Hq|].
  destruct (@train_gan_save_failure
              nat nat unit unit unit unit
              Toy.predict Toy.take Toy.concatenate Toy.d_step Toy.d_loss_of
              Toy.g_step Toy.g_step_on_discriminator Toy.a_loss_of
              Toy.first_picture Toy.train_size Toy.missing_dir
              Toy.discriminator Toy.gan tt 1%nat Toy.draws
              Toy.generator "out"%string 100%Z true 2%Z
              Toy.initial_store OSError Hpos Hsize Hnz Hq
              (fun _ => eq_refl))
    as (r & Hrun & Hstore & Hlog).
  exists r. split; [exact Hrun|].
  rewrite Hstore, Hlog. repeat split; vm_compute; reflexivity.
Defined.

(** ** Image loader: which exception *)

Section LoaderRaises.

Variable glob : string -> list string.
Variable imread : string -> Decoded.
Variable interp : Image -> nat * nat -> nat -> nat -> nat -> Z.

(** What the exception of the loop body says about the file. *)
Lemma load_image_raises (path : string) (height width : nat)
      (e : LoadError) :
  load_image imread interp path height width = inl e ->
  match e with
  | AttributeError => imread path = Unreadable
  | IndexError => exists g, imread path = Gray g
  | CvError =>
      exists img,
        imread path = Color img
        /\ (loadable (Color img) = false
            \/ height = 0%nat \/ width = 0%nat)
  end.
Proof.
  intros Hload.
  pose proof (load_image_returns_iff imread interp path height width)
    as Hiff.
  unfold load_image, load_raster in Hload.
  destruct (imread path) as [| g | img] eqn:Hread.
  - injection Hload as <-. reflexivity.
  - injection Hload as <-. now exists g.
  - assert (He : e = CvError).
    { unfold bind, cvtColor_BGR2RGB, resize in Hload.
      destruct (_ || _) in Hload; [|congruence].
      destruct (shape3 _) as [[rows cols] chans] in Hload.
      destruct (_ || _) in Hload; congruence. }
    subst e. exists img. split; [reflexivity|].
    destruct (loadable (Color img)) eqn:Hl; [|now left]. right.
    destruct height as [|h]; [now left|].
    destruct width as [|w]; [now right|].
    exfalso.
    destruct (proj2 Hiff) as [out Hout]; [split; [reflexivity | split; lia]|].
    unfold load_image, load_raster in Hout. rewrite Hread in Hout.
    congruence.
Qed.

Lemma load_all_raises (paths : list string) (height width : nat)
      (e : LoadError) :
  load_all imread interp paths height width = inl e ->
  exists loaded path rest,
    paths = loaded ++ path :: rest
    /\ Forall (fun q => exists img,
                  load_image imread interp q height width = inr img) loaded
    /\ load_image imread interp path height width = inl e.
Proof.
  induction paths as [|p paths IH]; cbn [load_all]; [discriminate|].
  unfold bind.
  destruct (load_image imread interp p height width) as [e' | img] eqn:Hp.
  - intros [= ->]. exists [], p, paths. repeat split; [constructor | exact Hp].
  - destruct (load_all imread interp paths height width) as [e' | imgs];
      [|discriminate].
    intros [= ->].
    destruct (IH eq_refl) as (loaded & path & rest & -> & Hloaded & Hpath).
    exists (p :: loaded), path, rest. repeat split.
    + constructor; [now exists img | exact Hloaded].
    + exact Hpath.
Qed.

(** X15: an exception of [get_images] names the first file that does not
    load and tells why: AttributeError for a file [cv2.imread] could not
    read, IndexError for a rank-2 (grey) image, an OpenCV error for a colour
    image without three or four channels or for a zero target size. *)
Theorem get_images_raises
        (image_dir : string) (height width : nat) (e : LoadError) :
  get_images glob imread interp image_dir height width = inl e ->
  exists loaded path rest,
    glob image_dir = loaded ++ path :: rest
    /\ Forall (fun q => exists img,
                  load_image imread interp q height width = inr img) loaded
    /\ match e with
       | AttributeError => imread path = Unreadable
       | IndexError => exists g, imread path = Gray g
       | CvError =>
           exists img,
             imread path = Color img
             /\ (loadable (Color img) = false
                 \/ height = 0%nat \/ width = 0%nat)
       end.
Proof.
  unfold get_images, bind.
  destruct (load_all imread interp (glob image_dir) height width)
    as [e' | images] eqn:Hload; [|discriminate].
  intros [= ->].
  destruct (load_all_raises _ _ _ Hload)
    as (loaded & path & rest & Hglob & Hloaded & Hpath).
  exists loaded, path, rest. repeat split; try assumption.
  now apply load_image_raises.
Qed.

End LoaderRaises.

Lemma get_images_raises_witness :
  get_images Sample.glob_three Sample.imread_three Toy.interp_corner
             "d" 64 64 = inl IndexError
  /\ exists loaded path rest,
       Sample.glob_three "d" = loaded ++ path :: rest
       /\ Forall (fun q => exists img,
                     load_image Sample.imread_three Toy.interp_corner
                                q 64 64 = inr img) loaded
       /\ exists g, Sample.imread_three path = Gray g.
Proof.
  assert (H : get_images Sample.glob_three Sample.imread_three
                         Toy.interp_corner "d" 64 64 = inl IndexError)
    by (vm_compute; reflexivity).
  split; [exact H|].
  exact (@get_images_raises
           Sample.glob_three Sample.imread_three Toy.interp_corner
           "d" 64%nat 64%nat IndexError H).
Defined.
